(** * Verification of the minimal PDF exam-paper generator
    (src/app/exam-papers/generate-pdf/route.ts).

    Modelling conventions.
    - A JavaScript string is a list of UTF-16 code units, each a [Z] in
      [0, 65535] ([jstr]); [.length] is the number of code units.
    - [TextEncoder.encode] is UTF-8 encoding of that code-unit sequence, with
      surrogate pairs combined and lone surrogates replaced by U+FFFD.
    - Font sizes of a [Line] are integers (the only sizes the program ever
      produces are 10, 11, 12, 13, 16 and 18); vertical positions are kept in
      hundredths of a point, so 841.89 - 56 is [78589].  With integer sizes
      every position the program computes has the form 785.89 - k for an
      integer k, which the double arithmetic of the source computes exactly
      and which is never equal to 56, so the page-break test is decided
      identically.
    - A JavaScript number is a binary64 value, [spec_float] of the Standard
      Library's [SpecFloat] at precision 53 and maximal exponent 1024, with
      its round-to-nearest-even arithmetic. *)

From Stdlib Require Import String Ascii ZArith List Bool Lia SpecFloat.
Import ListNotations.
Local Open Scope Z_scope.

(** ** JavaScript strings *)

Definition jstr := list Z.

(** ASCII string literal as a code-unit sequence. *)
Definition lit (s : string) : jstr :=
  map (fun a => Z.of_nat (nat_of_ascii a)) (list_ascii_of_string s).

Definition jlen (s : jstr) : Z := Z.of_nat (length s).

(** [Array.prototype.join] for strings. *)
Fixpoint join (sep : jstr) (l : list jstr) : jstr :=
  match l with
  | [] => []
  | [x] => x
  | x :: r => x ++ sep ++ join sep r
  end.

(** ECMAScript WhiteSpace and LineTerminator code units: the class [\s] of
    regular expressions and the set removed by [String.prototype.trim]. *)
Definition is_ws (c : Z) : bool :=
  (c =? 9) || (c =? 10) || (c =? 11) || (c =? 12) || (c =? 13) || (c =? 32)
  || (c =? 160) || (c =? 5760) || ((8192 <=? c) && (c <=? 8202))
  || (c =? 8232) || (c =? 8233) || (c =? 8239) || (c =? 8287)
  || (c =? 12288) || (c =? 65279).

Definition starts_ws (s : jstr) : bool :=
  match s with
  | c :: _ => is_ws c
  | [] => false
  end.

(** [s.split(/\s+/)]: the pieces between maximal runs of whitespace; a
    leading (trailing) run yields a leading (trailing) empty piece. *)
Fixpoint split_ws (s : jstr) : list jstr :=
  match s with
  | [] => [[]]
  | c :: r =>
      if is_ws c then
        (if starts_ws r then split_ws r else [] :: split_ws r)
      else
        match split_ws r with
        | [] => [[c]]
        | w :: ws => (c :: w) :: ws
        end
  end.

(** [s.split(sep)] for a one-code-unit separator. *)
Fixpoint split_on (sep : Z) (s : jstr) : list jstr :=
  match s with
  | [] => [[]]
  | c :: r =>
      if c =? sep then [] :: split_on sep r
      else
        match split_on sep r with
        | [] => [[c]]
        | w :: ws => (c :: w) :: ws
        end
  end.

Fixpoint drop_ws (s : jstr) : jstr :=
  match s with
  | c :: r => if is_ws c then drop_ws r else s
  | [] => []
  end.

(** [String.prototype.trim]. *)
Definition trim (s : jstr) : jstr := rev (drop_ws (rev (drop_ws s))).

Definition nonempty (s : jstr) : bool :=
  match s with [] => false | _ => true end.

(** [s.split(/\s+/).filter(Boolean)]. *)
Definition words (s : jstr) : list jstr := filter nonempty (split_ws s).

(** [safeText(text, '')] on a string: [input.replace(/\r/g, '')]. *)
Definition strip_cr (s : jstr) : jstr := filter (fun c => negb (c =? 13)) s.

(** ** wrapText *)

(** The inner [for (const w of words)] loop of [wrapText] from the state
    [line]; returns what it pushes to [out], including the final
    [if (line) out.push(line)]. *)
Fixpoint pack (maxChars : Z) (line : jstr) (ws : list jstr) : list jstr :=
  match ws with
  | [] => if nonempty line then [line] else []
  | w :: rest =>
      if negb (nonempty line) then pack maxChars w rest
      else if jlen (line ++ [32] ++ w) <=? maxChars
      then pack maxChars (line ++ [32] ++ w) rest
      else line :: pack maxChars w rest
  end.

(** One iteration of [for (const para of raw)]. *)
Definition wrap_para (maxChars : Z) (para : jstr) : list jstr :=
  match filter nonempty (split_ws (trim para)) with
  | [] => [[]]
  | ws => pack maxChars [] ws
  end.

Definition wrapText (text : jstr) (maxChars : Z) : list jstr :=
  flat_map (wrap_para maxChars) (split_on 10 (strip_cr text)).

(** ** Greedy grouping, the shape of [wrapText]'s output for a paragraph *)

Definition good_word (w : jstr) : Prop :=
  w <> [] /\ Forall (fun c => is_ws c = false) w.

Fixpoint consec_ok (m : Z) (gs : list (list jstr)) : Prop :=
  match gs with
  | g1 :: ((g2 :: _) as rest) =>
      jlen (join [32] g1) + 1 + jlen (hd [] g2) > m /\ consec_ok m rest
  | _ => True
  end.

(** [gs] splits [ws] into non-empty consecutive groups; a group of two or
    more words fits in [m] code units once space-joined; and the first word
    of each group would not have fitted on the previous line. *)
Definition greedy_groups (m : Z) (ws : list jstr) (gs : list (list jstr)) : Prop :=
  concat gs = ws
  /\ Forall (fun g => g <> []) gs
  /\ Forall (fun g => (2 <= length g)%nat -> jlen (join [32] g) <= m) gs
  /\ consec_ok m gs.

Definition glue (x : Z) (sep : bool) (L : list jstr) : list jstr :=
  if sep then [x] :: L
  else match L with [] => [[x]] | w :: ws => (x :: w) :: ws end.

(** Shape of one output line of [wrapText]: empty, or a non-empty group of
    words joined by single spaces that fits when it has two or more words. *)
Definition line_shape (m : Z) (l : jstr) : Prop :=
  l = [] \/ exists h, l = join [32] h /\ h <> [] /\ Forall good_word h
                   /\ ((2 <= length h)%nat -> jlen (join [32] h) <= m).

(** ** Numbers and characters *)

Fixpoint digits_aux (fuel : nat) (n : Z) (acc : jstr) : jstr :=
  match fuel with
  | O => acc
  | S f =>
      if n <? 10 then (48 + n) :: acc
      else digits_aux f (n / 10) ((48 + n mod 10) :: acc)
  end.

(** Decimal digits of a non-negative integer. *)
Definition dec (n : Z) : jstr := digits_aux (S (Z.to_nat (Z.log2 n))) n [].

(** [String(n)] / [`${n}`] for an integer [n] (below 10^21 in absolute
    value, where JavaScript switches to exponent notation). *)
Definition num_str (n : Z) : jstr :=
  if n <? 0 then 45 :: dec (- n) else dec n.

(** [String.fromCharCode(n)] for an integer [n]: ToUint16 keeps [n] modulo
    2^16. *)
Definition fromCharCode (n : Z) : jstr := [n mod 65536].

(** ** JavaScript numbers *)

(** The number denoted by an integer literal [n] (the nearest binary64
    value; exact for |n| <= 2^53). *)
Definition Z2SF (n : Z) : spec_float := binary_normalize 53 1024 n 0 false.

(** [x + y] on numbers. *)
Definition js_add (x y : spec_float) : spec_float := SFadd 53 1024 x y.

(** [Math.max(a, b)]: NaN if either is NaN, the larger otherwise, +0 being
    larger than -0. *)
Definition Math_max (a b : spec_float) : spec_float :=
  match SFcompare a b with
  | None => S754_nan
  | Some Lt => b
  | Some Gt => a
  | Some Eq =>
      match a, b with
      | S754_zero sa, S754_zero sb => S754_zero (andb sa sb)
      | _, _ => a
      end
  end.

(** ToUint16: NaN, zeros and infinities give 0; otherwise the number is
    truncated towards zero and taken modulo 2^16. *)
Definition ToUint16 (x : spec_float) : Z :=
  match x with
  | S754_finite s m e => cond_Zopp s (Z.shiftl (Zpos m) e) mod 65536
  | _ => 0
  end.

(** [String.fromCharCode(x)] for a number [x]. *)
Definition fromCharCode_num (x : spec_float) : jstr := [ToUint16 x].

(** [\w] of regular expressions: [A-Za-z0-9_]. *)
Definition is_word_char (c : Z) : bool :=
  ((65 <=? c) && (c <=? 90)) || ((97 <=? c) && (c <=? 122))
  || ((48 <=? c) && (c <=? 57)) || (c =? 95).

Definition ascii_upper (c : Z) : Z :=
  if (97 <=? c) && (c <=? 122) then c - 32 else c.

(** [s.replace(/\b\w/g, (m) => m.toUpperCase())]: a word character
    preceded by a non-word character (or the start) is upper-cased. *)
Fixpoint title_case_aux (prev_word : bool) (s : jstr) : jstr :=
  match s with
  | [] => []
  | c :: r =>
      (if is_word_char c && negb prev_word then ascii_upper c else c)
      :: title_case_aux (is_word_char c) r
  end.

Definition toTitleCase (s : jstr) : jstr := title_case_aux false s.

(** ** The paper model *)

(** A string-typed field that may also be absent or of another type. *)
Definition safeText (input : option jstr) (fallback : jstr) : jstr :=
  match input with
  | Some s => strip_cr s
  | None => fallback
  end.

Record ExamQuestion := {
  questionText : jstr;
  options : list jstr;
  (** [None]: absent or not a number. *)
  correctAnswerIndex : option spec_float;
  explanation : option jstr
}.

Record ExamPaper := {
  title : jstr;
  subject : jstr;
  board : option jstr;
  timeAllowed : option jstr;
  instructions : option jstr;
  passage : option jstr;
  questions : list ExamQuestion
}.

Record Line := mkLine {
  text : jstr;
  size : option Z;
  bold : option bool
}.

Definition blank : Line := mkLine [] None None.

Definition sized (sz : Z) (t : jstr) : Line := mkLine t (Some sz) None.

(** [arr.forEach((x, idx) => ...)] collecting what each call pushes. *)
Fixpoint forEach_idx {A B : Type} (f : Z -> A -> list B) (idx : Z) (l : list A)
  : list B :=
  match l with
  | [] => []
  | x :: r => f idx x ++ forEach_idx f (idx + 1) r
  end.

(** The body of the first [paper.questions.forEach]. *)
Definition question_lines (idx : Z) (q : ExamQuestion) : list Line :=
  let qNum := idx + 1 in
  map (sized 11)
    (wrapText (num_str qNum ++ lit ". " ++ safeText (Some (questionText q)) []) 92)
  ++ forEach_idx (fun j opt =>
       let letter := fromCharCode (65 + j) in
       map (sized 10)
         (wrapText (lit "   " ++ letter ++ lit ". " ++ safeText (Some opt) []) 88))
       0 (options q)
  ++ [blank].

(** [String.fromCharCode(65 + Math.max(0, ansIdx))]. *)
Definition answer_letter (ansIdx : spec_float) : jstr :=
  fromCharCode_num (js_add (Z2SF 65) (Math_max (Z2SF 0) ansIdx)).

(** The body of the second [paper.questions.forEach] (answer key); a
    missing index counts as 0 (the [typeof ... === 'number'] test). *)
Definition answer_lines (idx : Z) (q : ExamQuestion) : list Line :=
  let qNum := idx + 1 in
  let ansIdx := match correctAnswerIndex q with Some n => n | None => Z2SF 0 end in
  let letter := answer_letter ansIdx in
  let expl := safeText (explanation q) [] in
  mkLine (num_str qNum ++ lit ". " ++ letter) (Some 11) (Some true)
  :: (if nonempty expl
      then map (sized 10) (wrapText (lit "Explanation: " ++ expl) 92)
      else [])
  ++ [blank].

Definition default_instructions : jstr :=
  lit "Answer all questions. Choose the best answer for each question.".

(** Everything [buildPaperLines] pushes before the answer key. *)
Definition paper_body (paper : ExamPaper) : list Line :=
  let title := safeText (Some (title paper)) (lit "11+ Exam Paper") in
  let subject := safeText (Some (subject paper)) (lit "Subject") in
  let board := safeText (board paper) (lit "Standard") in
  let timeAllowed := safeText (timeAllowed paper) (lit "Not specified") in
  let instructions := safeText (instructions paper) default_instructions in
  [mkLine (lit "11 Plus Exam Papers") (Some 16) (Some true);
   mkLine title (Some 18) (Some true);
   sized 12 (toTitleCase subject ++ [32; 8226; 32] ++ board ++ lit " Style");
   sized 11 (lit "Time Allowed: " ++ timeAllowed);
   sized 11 (lit "Total Questions: " ++ num_str (Z.of_nat (length (questions paper))));
   blank;
   mkLine (lit "Instructions") (Some 12) (Some true)]
  ++ map (sized 10) (wrapText instructions 92)
  ++ [blank; sized 10 [8212]; blank]
  ++ (match passage paper with
      | Some ps =>
          if nonempty ps then
            mkLine (lit "Reading Passage") (Some 12) (Some true)
            :: map (sized 10) (wrapText ps 92) ++ [blank]
          else []
      | None => []
      end)
  ++ [mkLine (lit "Questions") (Some 13) (Some true); blank]
  ++ forEach_idx question_lines 0 (questions paper).

Definition answer_heading : Line :=
  mkLine (lit "Answer Key (Parents & Tutors)") (Some 13) (Some true).

Definition buildPaperLines (paper : ExamPaper) : list Line :=
  paper_body paper
  ++ [answer_heading; blank]
  ++ forEach_idx answer_lines 0 (questions paper).

(** Concrete papers, as the POST handler hands them to [buildPaperLines]. *)
Definition sample_question (ans : option spec_float) : ExamQuestion := {|
  questionText := lit "What is 2+2?";
  options := [lit "3"; lit "4"; lit "5"; lit "6"];
  correctAnswerIndex := ans;
  explanation := Some (lit "2+2=4") |}.

Definition sample_paper (ans : option spec_float) : ExamPaper := {|
  title := lit "Sample";
  subject := lit "maths";
  board := Some (lit "Standard");
  timeAllowed := Some (lit "Not specified");
  instructions := Some [];
  passage := Some [];
  questions := [sample_question ans] |}.

(** ** UTF-8 ([TextEncoder.encode]) *)

Definition enc_cp (c : Z) : list Z :=
  if c <? 128 then [c]
  else if c <? 2048 then [192 + c / 64; 128 + c mod 64]
  else if c <? 65536 then [224 + c / 4096; 128 + (c / 64) mod 64; 128 + c mod 64]
  else [240 + c / 262144; 128 + (c / 4096) mod 64; 128 + (c / 64) mod 64;
        128 + c mod 64].

Definition is_high (u : Z) : bool := (55296 <=? u) && (u <=? 56319).
Definition is_low (u : Z) : bool := (56320 <=? u) && (u <=? 57343).

Fixpoint utf8 (s : jstr) : list Z :=
  match s with
  | [] => []
  | u :: r =>
      if is_high u then
        match r with
        | v :: r' =>
            if is_low v
            then enc_cp (65536 + (u - 55296) * 1024 + (v - 56320)) ++ utf8 r'
            else enc_cp 65533 ++ utf8 r
        | [] => enc_cp 65533
        end
      else if is_low u then enc_cp 65533 ++ utf8 r
      else enc_cp u ++ utf8 r
  end.

(** ** pdfStringEscape *)

(** [s.replace(/c/g, r)] for a single code unit [c]. *)
Definition replace_char (c : Z) (r : jstr) (s : jstr) : jstr :=
  flat_map (fun x => if x =? c then r else [x]) s.

Definition pdfStringEscape (s : jstr) : jstr :=
  replace_char 41 [92; 41] (replace_char 40 [92; 40] (replace_char 92 [92; 92] s)).

(** ** Page layout in buildPdfFromLines *)

(** [x.toFixed(2)] for [x] given in hundredths. *)
Definition toFixed2 (h : Z) : jstr :=
  (if h <? 0 then [45] else []) ++ dec (Z.abs h / 100) ++ [46]
  ++ [48 + (Z.abs h mod 100) / 10; 48 + (Z.abs h mod 100) mod 10].

(** The strings pushed to [current.ops]; positions and heights in
    hundredths of a point. *)
Inductive Op :=
| OpBT                  (* beginText: 'BT' *)
| OpET                  (* endText: 'ET' *)
| OpTf (size : Z)       (* setFont: '/F1 size Tf' *)
| OpTd (x y : Z)        (* moveTo: 'x y Td' *)
| OpDown (lh : Z)       (* '0 -lh Td' *)
| OpTj (t : jstr).      (* show: '(escaped t) Tj' *)

Definition render (op : Op) : jstr :=
  match op with
  | OpBT => lit "BT"
  | OpET => lit "ET"
  | OpTf sz => lit "/F1 " ++ num_str sz ++ lit " Tf"
  | OpTd x y => toFixed2 x ++ [32] ++ toFixed2 y ++ lit " Td"
  | OpDown lh => lit "0 -" ++ toFixed2 lh ++ lit " Td"
  | OpTj t => lit "(" ++ pdfStringEscape t ++ lit ") Tj"
  end.

Definition PAGE_W : Z := 59528.
Definition PAGE_H : Z := 84189.
Definition M_LEFT : Z := 4800.
Definition M_TOP : Z := 5600.
Definition M_BOTTOM : Z := 5600.
Definition defaultFontSize : Z := 11.
Definition lineGap : Z := 3.

(** The closure state: finished pages, the current page's ops (in push
    order) and the cursor [y]. *)
Record LayoutState := {
  pages : list (list Op);
  current : list Op;
  y : Z
}.

(** [beginText(); setFont(defaultFontSize); moveTo(M_LEFT, y)] at the top. *)
Definition page_start : list Op :=
  [OpBT; OpTf defaultFontSize; OpTd M_LEFT (PAGE_H - M_TOP)].

Definition layout_init : LayoutState :=
  {| pages := []; current := page_start; y := PAGE_H - M_TOP |}.

Definition line_size (ln : Line) : Z :=
  match size ln with Some s => s | None => defaultFontSize end.

(** One iteration of [for (const ln of lines)]. *)
Definition layout_step (st : LayoutState) (ln : Line) : LayoutState :=
  let sz := line_size ln in
  let lh := 100 * (sz + lineGap) in
  let st1 :=
    if y st - lh <? M_BOTTOM
    then {| pages := pages st ++ [current st ++ [OpET]];
            current := page_start; y := PAGE_H - M_TOP |}
    else st in
  {| pages := pages st1;
     current := current st1 ++ [OpTf sz; OpTj (text ln); OpDown lh];
     y := y st1 - lh |}.

(** The pages of [buildPdfFromLines], after the final
    [endText(); pages.push(current)]. *)
Definition layout (lines : list Line) : list (list Op) :=
  let st := fold_left layout_step lines layout_init in
  pages st ++ [current st ++ [OpET]].

(** ** PDF objects and serialization *)

Definition content_of (p : list Op) : jstr := join [10] (map render p).

Definition stream_obj (content : jstr) : jstr :=
  lit "<< /Length " ++ num_str (Z.of_nat (length (utf8 content))) ++ lit " >>"
  ++ [10] ++ lit "stream" ++ [10] ++ content ++ [10] ++ lit "endstream".

Definition catalogId : Z := 1.
Definition pagesId : Z := 2.
Definition fontId : Z := 3.

Definition page_obj (contentObjId : Z) : jstr :=
  lit "<<" ++ [10] ++ lit "/Type /Page" ++ [10]
  ++ lit "/Parent " ++ num_str pagesId ++ lit " 0 R" ++ [10]
  ++ lit "/MediaBox [0 0 " ++ toFixed2 PAGE_W ++ [32] ++ toFixed2 PAGE_H ++ lit "]"
  ++ [10] ++ lit "/Resources << /Font << /F1 " ++ num_str fontId
  ++ lit " 0 R >> >>" ++ [10]
  ++ lit "/Contents " ++ num_str contentObjId ++ lit " 0 R" ++ [10] ++ lit ">>".

Definition font_obj : jstr :=
  lit "<< /Type /Font /Subtype /Type1 /BaseFont /Helvetica >>".

(** The [for (const p of pages)] loop from [nextId]: the objects it adds
    (content then page, per page) and the page ids. *)
Fixpoint page_objects (nextId : Z) (ps : list (list Op)) : list jstr * list Z :=
  match ps with
  | [] => ([], [])
  | p :: r =>
      let contentObjId := nextId in
      let pageObjId := nextId + 1 in
      let '(objs, ids) := page_objects (nextId + 2) r in
      (stream_obj (content_of p) :: page_obj contentObjId :: objs, pageObjId :: ids)
  end.

Definition pages_obj (pageIds : list Z) : jstr :=
  lit "<< /Type /Pages /Kids [ "
  ++ join [32] (map (fun id => num_str id ++ lit " 0 R") pageIds)
  ++ lit " ] /Count " ++ num_str (Z.of_nat (length pageIds)) ++ lit " >>".

Definition catalog_obj : jstr :=
  lit "<< /Type /Catalog /Pages " ++ num_str pagesId ++ lit " 0 R >>".

(** [finalBodies]: catalog, pages, font, then the content/page pairs. *)
Definition finalBodies (lines : list Line) : list jstr :=
  let '(objs, pageIds) := page_objects 4 (layout lines) in
  catalog_obj :: pages_obj pageIds :: font_obj :: objs.

Definition pdf_header : jstr := lit "%PDF-1.4" ++ [10; 37; 226; 227; 207; 211; 10].

Definition obj_str (objNum : Z) (body : jstr) : jstr :=
  num_str objNum ++ lit " 0 obj" ++ [10] ++ body ++ [10] ++ lit "endobj" ++ [10].

(** The object loop: from object index [i] and byte position [cursor],
    the encoded chunks, the offsets it pushes, and the final cursor. *)
Fixpoint emit_objects (i cursor : Z) (bodies : list jstr)
  : list (list Z) * list Z * Z :=
  match bodies with
  | [] => ([], [], cursor)
  | b :: r =>
      let bytes := utf8 (obj_str (i + 1) b) in
      let '(chunks, offs, cur) :=
        emit_objects (i + 1) (cursor + Z.of_nat (length bytes)) r in
      (bytes :: chunks, cursor :: offs, cur)
  end.

(** [String(off).padStart(10, '0')]. *)
Definition padStart10 (s : jstr) : jstr := repeat 48 (10 - length s) ++ s.

Definition xref_entry (off : Z) : jstr := padStart10 (num_str off) ++ lit " 00000 n " ++ [10].

(** [xref]; [offsets] is the whole array, starting with the entry 0 for
    object 0 that the loop skips. *)
Definition xref_table (nbodies : nat) (offsets : list Z) : jstr :=
  lit "xref" ++ [10] ++ lit "0 " ++ num_str (Z.of_nat nbodies + 1) ++ [10]
  ++ lit "0000000000 65535 f " ++ [10]
  ++ concat (map xref_entry (tl offsets)).

Definition trailer (nbodies : nat) (xrefStart : Z) : jstr :=
  lit "trailer" ++ [10] ++ lit "<< /Size " ++ num_str (Z.of_nat nbodies + 1)
  ++ lit " /Root " ++ num_str catalogId ++ lit " 0 R >>" ++ [10]
  ++ lit "startxref" ++ [10] ++ num_str xrefStart ++ [10] ++ lit "%%EOF" ++ [10].

Definition compose (bodies : list jstr) : list Z :=
  let hdr := utf8 pdf_header in
  let '(chunks, offs, xrefStart) :=
    emit_objects 0 (Z.of_nat (length hdr)) bodies in
  concat ([hdr] ++ chunks
          ++ [utf8 (xref_table (length bodies) (0 :: offs));
              utf8 (trailer (length bodies) xrefStart)]).

Definition buildPdfFromLines (lines : list Line) : list Z :=
  compose (finalBodies lines).

(** ** Specification-side definitions *)

Definition is_show (op : Op) : bool :=
  match op with OpTj _ => true | _ => false end.

(** The show-text operations of a list of pages, page after page. *)
Definition shows (ps : list (list Op)) : list Op := concat (map (filter is_show) ps).

(** Escaping as the spec words it: each backslash and parenthesis gets a
    backslash in front. *)
Definition esc_char (c : Z) : jstr :=
  if (c =? 92) || (c =? 40) || (c =? 41) then [92; c] else [c].

(** Reader of the body of a PDF literal string: [\\], [\(] and [\)] stand
    for one character; [None] on a parenthesis that is not escaped (or on
    another escape, which the writer never produces). *)
Fixpoint read_literal (l : jstr) : option jstr :=
  match l with
  | [] => Some []
  | c :: r =>
      if c =? 92 then
        match r with
        | d :: r' =>
            if (d =? 92) || (d =? 40) || (d =? 41)
            then option_map (cons d) (read_literal r')
            else None
        | [] => None
        end
      else if (c =? 40) || (c =? 41) then None
      else option_map (cons c) (read_literal r)
  end.

(** The usable height of a page, 841.89 - 56 - 56, in hundredths. *)
Definition usable_height : Z := PAGE_H - M_TOP - M_BOTTOM.

(** Sum over the lines of fontSize + 3, in hundredths. *)
Definition total_height (lines : list Line) : Z :=
  fold_right (fun ln acc => 100 * (line_size ln + lineGap) + acc) 0 lines.

(** The page count the spec states: ceil(total height / usable height). *)
Definition claimed_page_count (lines : list Line) : Z :=
  (total_height lines + usable_height - 1) / usable_height.

(** Byte offsets recorded by the object loop, and the final cursor
    ([xrefStart]). *)
Definition object_offsets (bodies : list jstr) : list Z :=
  snd (fst (emit_objects 0 (Z.of_nat (length (utf8 pdf_header))) bodies)).

Definition xref_start (bodies : list jstr) : Z :=
  snd (emit_objects 0 (Z.of_nat (length (utf8 pdf_header))) bodies).

(** ** safeFilename *)

(** [String.prototype.toLowerCase] on one code unit, for the code units
    whose lower case the titles of this application meet: ASCII and
    Latin-1 capitals, the dotted capital I (two code units) and the Kelvin
    sign; any other code unit is kept. The theorems on [safeFilename_with]
    hold for every lower-casing function. *)
Definition lower_unit (c : Z) : jstr :=
  if ((65 <=? c) && (c <=? 90)) || ((192 <=? c) && (c <=? 222) && negb (c =? 215))
  then [c + 32]
  else if c =? 304 then [105; 775]
  else if c =? 8490 then [107]
  else [c].

Definition toLowerCase (s : jstr) : jstr := flat_map lower_unit s.

(** [[a-z0-9]]. *)
Definition is_alnum (c : Z) : bool :=
  ((97 <=? c) && (c <=? 122)) || ((48 <=? c) && (c <=? 57)).

(** [.replace(/[^a-z0-9]+/g, '-')]: a scan from left to right; [in_run]
    is set inside a match of [[^a-z0-9]+], which is greedy, so the whole
    run becomes one ['-']. *)
Fixpoint collapse_runs (in_run : bool) (s : jstr) : jstr :=
  match s with
  | [] => []
  | c :: r =>
      if is_alnum c then c :: collapse_runs false r
      else if in_run then collapse_runs true r
      else 45 :: collapse_runs true r
  end.

Definition drop_dash (s : jstr) : jstr :=
  match s with
  | c :: r => if c =? 45 then r else s
  | [] => []
  end.

(** [.replace(/(^-|-$)/g, '')]: a ['-'] at the start is removed, then a
    ['-'] at the end of what remains (a lone ['-'] is consumed by the first
    alternative and the scan stops at the end). *)
Definition strip_dashes (s : jstr) : jstr :=
  let s1 := drop_dash s in
  if last s1 0 =? 45 then removelast s1 else s1.

(** [safeFilename], for a given lower-casing function. *)
Definition safeFilename_with (lower : jstr -> jstr) (input : jstr) : jstr :=
  let s := firstn 80 (strip_dashes (collapse_runs false (lower input))) in
  match s with
  | [] => lit "exam-paper"
  | _ => s
  end.

Definition safeFilename (input : jstr) : jstr := safeFilename_with toLowerCase input.

(** The filename derivation as the spec words it: every character outside
    [[a-z0-9]] becomes ['-'], adjacent hyphens are merged, one hyphen is
    removed at each end, the first 80 characters are kept, and an empty
    result becomes [exam-paper]. *)
Fixpoint merge_dashes (s : jstr) : jstr :=
  match s with
  | [] => []
  | c :: r =>
      let d := merge_dashes r in
      match d with
      | c' :: _ => if (c =? 45) && (c' =? 45) then d else c :: d
      | [] => [c]
      end
  end.

Definition spec_filename (lower : jstr -> jstr) (input : jstr) : jstr :=
  let runs := merge_dashes (map (fun c => if is_alnum c then c else 45) (lower input)) in
  let stripped := rev (drop_dash (rev (drop_dash runs))) in
  match firstn 80 stripped with
  | [] => lit "exam-paper"
  | s => s
  end.

(** ** The POST handler *)

#[local] Set Warnings "-register-all".

(** A value produced by [req.json()] ([JSON.parse]); a number is the
    binary64 value the parser produces. *)
Inductive json : Type :=
| JNull
| JBool (b : bool)
| JNum (x : spec_float)
| JStr (s : jstr)
| JArr (items : list json)
| JObj (fields : list (jstr * json)).

(** Member lookup in a parsed object: a repeated key keeps its last value. *)
Fixpoint lookup_field (k : jstr) (fields : list (jstr * json)) : option json :=
  match fields with
  | [] => None
  | (k', v) :: r =>
      match lookup_field k r with
      | Some w => Some w
      | None => if list_eq_dec Z.eq_dec k k' then Some v else None
      end
  end.

(** [v[k]] for the keys the handler reads: [None] when the access throws
    a TypeError ([v] is [null]), [Some None] for [undefined]. Booleans,
    numbers, strings and arrays have none of these keys. *)
Definition prop (v : json) (k : string) : option (option json) :=
  match v with
  | JNull => None
  | JObj fields => Some (lookup_field (lit k) fields)
  | _ => Some None
  end.

Definition bind_exn {A B : Type} (m : option A) (f : A -> option B) : option B :=
  match m with Some a => f a | None => None end.

Notation "x <-? m ;; f" := (bind_exn m (fun x => f))
  (at level 61, m at next level, right associativity).

Fixpoint map_exn {A B : Type} (f : A -> option B) (l : list A) : option (list B) :=
  match l with
  | [] => Some []
  | a :: r => b <-? f a ;; bs <-? map_exn f r ;; Some (b :: bs)
  end.

(** [typeof v === 'string' ? v : undefined], as [safeText] sees it. *)
Definition as_str (v : option json) : option jstr :=
  match v with Some (JStr s) => Some s | _ => None end.

(** [!paper]. *)
Definition falsy (v : json) : bool :=
  match v with
  | JNull | JBool false | JNum (S754_zero _) | JNum S754_nan | JStr [] => true
  | _ => false
  end.

(** The object the handler builds for each element [q] of [questions]. *)
Definition normalize_question (q : json) : option ExamQuestion :=
  qt <-? prop q "questionText" ;;
  opts <-? prop q "options" ;;
  cai <-? prop q "correctAnswerIndex" ;;
  ex <-? prop q "explanation" ;;
  Some {| questionText := safeText (as_str qt) [];
          options := match opts with
                     | Some (JArr os) => map (fun o => safeText (as_str (Some o)) []) os
                     | _ => []
                     end;
          correctAnswerIndex := match cai with Some (JNum n) => Some n | _ => Some (Z2SF 0) end;
          explanation := Some (safeText (as_str ex) []) |}.

Inductive response : Type :=
| Resp400
| Resp200 (body : list Z) (filename : jstr)
| Throws.

Definition POST_pdf (paper : json) (t s : jstr) (qs : list json) : response :=
  match
    (board <-? prop paper "board" ;;
     timeAllowed <-? prop paper "timeAllowed" ;;
     instructions <-? prop paper "instructions" ;;
     passage <-? prop paper "passage" ;;
     questions <-? map_exn normalize_question qs ;;
     Some (buildPaperLines
             {| title := safeText (Some t) (lit "11+ Exam Paper");
                subject := safeText (Some s) (lit "Subject");
                board := Some (safeText (as_str board) (lit "Standard"));
                timeAllowed := Some (safeText (as_str timeAllowed) (lit "Not specified"));
                instructions := Some (safeText (as_str instructions) []);
                passage := Some (safeText (as_str passage) []);
                questions := questions |}))
  with
  | Some lines => Resp200 (buildPdfFromLines lines) (safeFilename t ++ lit ".pdf")
  | None => Throws
  end.

(** [POST]: [body] is [None] when [req.json()] rejects. *)
Definition POST (body : option json) : response :=
  match body with
  | None => Resp400
  | Some paper =>
      if falsy paper then Resp400 else
      match prop paper "title", prop paper "subject", prop paper "questions" with
      | Some (Some (JStr t)), Some (Some (JStr s)), Some (Some (JArr ((_ :: _) as qs))) =>
          POST_pdf paper t s qs
      | _, _, _ => Resp400
      end
  end.

(** The [questions] member of a parsed object, when it is an array. *)
Definition questions_field (paper : json) : list json :=
  match paper with
  | JObj fields =>
      match lookup_field (lit "questions") fields with
      | Some (JArr qs) => qs
      | _ => []
      end
  | _ => []
  end.

(** The required-shape check as the spec states it. *)
Definition shape_ok (paper : json) : bool :=
  match paper with
  | JObj fields =>
      match lookup_field (lit "title") fields, lookup_field (lit "subject") fields,
            lookup_field (lit "questions") fields with
      | Some (JStr _), Some (JStr _), Some (JArr (_ :: _)) => true
      | _, _, _ => false
      end
  | _ => false
  end.

(** A code unit that UTF-8 encodes as itself. *)
Definition ascii_unit (c : Z) : Prop := 0 <= c < 128.

(** ** Statement helpers for further properties *)

(** Whether the code unit before position [i] of [s] is a word character. *)
Definition prev_word (s : jstr) (i : nat) : bool :=
  match i with
  | O => false
  | S j => match nth_error s j with Some d => is_word_char d | None => false end
  end.

(** [s] contains two adjacent hyphens. *)
Definition has_double_dash (s : jstr) : Prop :=
  exists p q, s = p ++ 45 :: 45 :: q.

(** A line with its [bold] flag removed. *)
Definition unbold (ln : Line) : Line := mkLine (text ln) (size ln) None.

(** Height of a line, in hundredths of a point. *)
Definition line_height (ln : Line) : Z := 100 * (line_size ln + lineGap).

(** The operations [buildPdfFromLines] pushes for one line. *)
Definition line_ops (ln : Line) : list Op :=
  [OpTf (line_size ln); OpTj (text ln); OpDown (line_height ln)].

(** A page holding the lines [g]. *)
Definition page_ops (g : list Line) : list Op :=
  page_start ++ flat_map line_ops g ++ [OpET].

(** Each page after the first starts with a line that would not have fitted
    below the lines of the page before it. *)
Fixpoint page_breaks_ok (gs : list (list Line)) : Prop :=
  match gs with
  | g :: ((g' :: _) as r) =>
      (exists ln rest, g' = ln :: rest
                       /\ usable_height < total_height g + line_height ln)
      /\ page_breaks_ok r
  | _ => True
  end.

(** Starting below lines of total height [placed], each line of [g] fits
    above the bottom margin when it is placed. *)
Fixpoint lines_fit (placed : Z) (g : list Line) : Prop :=
  match g with
  | [] => True
  | ln :: r => placed + line_height ln <= usable_height
               /\ lines_fit (placed + line_height ln) r
  end.

(** Every line of the first page, and every line but the first of each
    later page, fits below the lines above it on its page. *)
Definition page_fits_ok (gs : list (list Line)) : Prop :=
  match gs with
  | [] => True
  | g :: r => lines_fit 0 g
              /\ Forall (fun g' => match g' with
                                   | [] => True
                                   | ln :: rest => lines_fit (line_height ln) rest
                                   end) r
  end.


(** The exponent of the binary64 value of an integer [0 < N < 2^53]. *)
Definition fexp_of (N : Z) : Z := Z.max (Z.log2 N + 1 - 53) (emin 53 1024).

(** * Proofs *)

Example wrapText_ex1 :
  wrapText (lit "aa bb cc  dd") 5 = [lit "aa bb"; lit "cc dd"].
Proof. reflexivity. Qed.

Example wrapText_ex2 :
  wrapText (lit "  x" ++ [10] ++ [10] ++ lit "abcdefg y") 3
  = [lit "x"; []; lit "abcdefg"; lit "y"].
Proof. reflexivity. Qed.

(** ** Lemmas on whitespace splitting *)

Lemma split_ws_nonnil : forall s, split_ws s <> [].
Proof.
  induction s as [|c r IH]; simpl; [discriminate|].
  destruct (is_ws c); [destruct (starts_ws r); [exact IH|discriminate]|].
  destruct (split_ws r); discriminate.
Qed.

Lemma split_ws_starts : forall s,
  starts_ws s = true -> exists ws, split_ws s = [] :: ws.
Proof.
  induction s as [|c r IH]; simpl; [discriminate|].
  intros Hc; rewrite Hc.
  destruct (starts_ws r) eqn:E; [apply IH; reflexivity|eauto].
Qed.

Lemma words_nil : words [] = [].
Proof. reflexivity. Qed.

Lemma words_ws_cons : forall c s, is_ws c = true -> words (c :: s) = words s.
Proof.
  intros c s H; unfold words; simpl; rewrite H.
  destruct (starts_ws s); reflexivity.
Qed.

Lemma glue_nonnil : forall x b L, glue x b L <> [].
Proof. intros x [|] [|? ?]; discriminate. Qed.

Lemma words_cons_nonws : forall x s, is_ws x = false ->
  words (x :: s) = glue x (starts_ws s) (words s).
Proof.
  intros x s H; unfold words; simpl; rewrite H.
  destruct (split_ws s) as [|l l0] eqn:E; [exfalso; exact (split_ws_nonnil s E)|].
  simpl.
  destruct (starts_ws s) eqn:S.
  - destruct (split_ws_starts s S) as [ws Hws]; rewrite E in Hws.
    injection Hws as -> ->; reflexivity.
  - destruct s as [|y s'].
    + simpl in E; injection E as <- <-; reflexivity.
    + simpl in S, E; rewrite S in E.
      destruct (split_ws s') as [|w ws]; injection E as <- <-; reflexivity.
Qed.

Lemma words_app_ws : forall a b c, is_ws c = true ->
  words (a ++ c :: b) = words a ++ words b.
Proof.
  induction a as [|x a IH]; intros b c Hc.
  - simpl; rewrite words_ws_cons by exact Hc; reflexivity.
  - simpl. destruct (is_ws x) eqn:Hx.
    + rewrite !words_ws_cons by exact Hx; apply IH; exact Hc.
    + rewrite !words_cons_nonws by exact Hx; rewrite IH by exact Hc.
      destruct a as [|y a'].
      * simpl; rewrite Hc; reflexivity.
      * simpl starts_ws. destruct (is_ws y) eqn:Hy; [reflexivity|].
        destruct (words (y :: a')) as [|w ws] eqn:E.
        -- rewrite words_cons_nonws in E by exact Hy.
           exfalso; exact (glue_nonnil _ _ _ E).
        -- reflexivity.
Qed.

Lemma words_snoc_ws : forall a c, is_ws c = true -> words (a ++ [c]) = words a.
Proof.
  intros a c Hc; rewrite (words_app_ws a [] c Hc), words_nil, app_nil_r;
  reflexivity.
Qed.

Lemma words_drop_ws : forall s, words (drop_ws s) = words s.
Proof.
  induction s as [|c r IH]; simpl; [reflexivity|].
  destruct (is_ws c) eqn:Hc; [rewrite words_ws_cons by exact Hc; exact IH|].
  reflexivity.
Qed.

Lemma words_rev_drop_ws : forall u, words (rev (drop_ws u)) = words (rev u).
Proof.
  induction u as [|c u IH]; simpl; [reflexivity|].
  destruct (is_ws c) eqn:Hc; [|reflexivity].
  rewrite IH, words_snoc_ws by exact Hc; reflexivity.
Qed.

Lemma words_trim : forall s, words (trim s) = words s.
Proof.
  intros s; unfold trim.
  rewrite words_rev_drop_ws, rev_involutive, words_drop_ws; reflexivity.
Qed.

Lemma words_good_word : forall w, good_word w -> words w = [w].
Proof.
  induction w as [|x w IH]; intros [Hne Hall]; [congruence|].
  inversion Hall as [|? ? Hx Hw]; subst.
  rewrite words_cons_nonws by exact Hx.
  destruct w as [|y w'].
  - reflexivity.
  - inversion Hw as [|? ? Hy _]; subst.
    rewrite IH by (split; [discriminate|exact Hw]).
    simpl; rewrite Hy; reflexivity.
Qed.

Lemma words_join : forall c L, is_ws c = true ->
  words (join [c] L) = concat (map words L).
Proof.
  intros c L Hc; induction L as [|x L IH]; [reflexivity|].
  destruct L as [|y L'].
  - simpl; rewrite app_nil_r; reflexivity.
  - change (join [c] (x :: y :: L')) with (x ++ [c] ++ join [c] (y :: L')).
    replace (x ++ [c] ++ join [c] (y :: L')) with (x ++ c :: join [c] (y :: L'))
      by reflexivity.
    rewrite words_app_ws by exact Hc. rewrite IH; reflexivity.
Qed.

Lemma split_on_nonnil : forall sep s, split_on sep s <> [].
Proof.
  intros sep; induction s as [|c r IH]; simpl; [discriminate|].
  destruct (c =? sep); [discriminate|].
  destruct (split_on sep r); discriminate.
Qed.

Lemma join_cons_head : forall sep c w ws,
  join sep ((c :: w) :: ws) = c :: join sep (w :: ws).
Proof. intros sep c w [|v ws]; reflexivity. Qed.

Lemma split_on_cons : forall sep c r,
  split_on sep (c :: r)
  = if c =? sep then [] :: split_on sep r
    else match split_on sep r with
         | [] => [[c]]
         | w :: ws => (c :: w) :: ws
         end.
Proof. reflexivity. Qed.

Lemma join_split_on : forall sep s, join [sep] (split_on sep s) = s.
Proof.
  intros sep; induction s as [|c r IH]; [reflexivity|].
  rewrite split_on_cons.
  destruct (split_on sep r) as [|w ws] eqn:Hs;
    [exfalso; exact (split_on_nonnil _ _ Hs)|].
  rewrite ?Hs in IH.
  destruct (c =? sep) eqn:E.
  - apply Z.eqb_eq in E; subst c.
    change (join [sep] ([] :: w :: ws)) with ([] ++ [sep] ++ join [sep] (w :: ws)).
    simpl app; f_equal; exact IH.
  - rewrite join_cons_head; f_equal; exact IH.
Qed.

(** ** Lemmas on [pack] *)

Lemma jlen_app : forall a b, jlen (a ++ b) = jlen a + jlen b.
Proof. intros a b; unfold jlen; rewrite length_app; lia. Qed.

Lemma join_snoc : forall sep g w, g <> [] ->
  join sep (g ++ [w]) = join sep g ++ sep ++ w.
Proof.
  intros sep g w; induction g as [|x g IH]; intros Hne; [congruence|].
  destruct g as [|y g'].
  - reflexivity.
  - change ((x :: y :: g') ++ [w]) with (x :: (y :: g' ++ [w])).
    change (join sep (x :: y :: g' ++ [w]))
      with (x ++ sep ++ join sep ((y :: g') ++ [w])).
    rewrite IH by discriminate.
    change (join sep (x :: y :: g')) with (x ++ sep ++ join sep (y :: g')).
    rewrite <- !app_assoc; reflexivity.
Qed.

Lemma join_nonempty : forall g, g <> [] -> Forall good_word g ->
  nonempty (join [32] g) = true.
Proof.
  intros [|w g] Hne Hg; [congruence|].
  inversion Hg as [|? ? [Hw _] _]; subst.
  destruct w as [|x w]; [congruence|].
  rewrite join_cons_head; reflexivity.
Qed.

Lemma concat_words_good : forall g, Forall good_word g ->
  concat (map words g) = g.
Proof.
  induction g as [|w g IH]; intros Hg; [reflexivity|].
  inversion Hg; subst; simpl.
  rewrite words_good_word by assumption; rewrite IH by assumption; reflexivity.
Qed.

Lemma words_join_good : forall g, Forall good_word g -> words (join [32] g) = g.
Proof.
  intros g Hg; rewrite words_join by reflexivity; apply concat_words_good, Hg.
Qed.

Section Pack.
Variable m : Z.

Lemma pack_words : forall ws g, Forall good_word g -> Forall good_word ws ->
  concat (map words (pack m (join [32] g) ws)) = g ++ ws.
Proof.
  induction ws as [|w ws IH]; intros g Hg Hws.
  - destruct g as [|x g'].
    + reflexivity.
    + cbn [pack]; rewrite join_nonempty by (discriminate || assumption).
      cbv iota; cbn [map concat]; rewrite !app_nil_r; apply words_join_good, Hg.
  - inversion Hws as [|? ? Hw Hws']; subst.
    destruct g as [|x g'].
    + cbn [pack]. simpl nonempty; simpl negb; cbv iota.
      change w with (join [32] [w]) at 1. apply IH; auto.
    + cbn [pack]; rewrite join_nonempty by (discriminate || assumption).
      simpl negb; cbv iota.
      destruct (jlen (join [32] (x :: g') ++ [32] ++ w) <=? m).
      * rewrite <- join_snoc by discriminate.
        rewrite IH; [rewrite <- app_assoc; reflexivity| |assumption].
        apply Forall_app; auto.
      * cbn [map concat]. rewrite words_join_good by assumption.
        change w with (join [32] [w]) at 1. rewrite IH; auto.
Qed.

Lemma pack_greedy : forall ws g, g <> [] -> Forall good_word g ->
  Forall good_word ws ->
  ((2 <= length g)%nat -> jlen (join [32] g) <= m) ->
  exists h gs, pack m (join [32] g) ws = map (join [32]) ((g ++ h) :: gs)
    /\ greedy_groups m (g ++ ws) ((g ++ h) :: gs).
Proof.
  induction ws as [|w ws IH]; intros g Hne Hg Hws Hlen.
  - exists [], []. rewrite !app_nil_r. split.
    + cbn [pack]; rewrite join_nonempty by assumption; reflexivity.
    + unfold greedy_groups; simpl; rewrite app_nil_r.
      repeat split; auto.
  - inversion Hws as [|? ? Hw Hws']; subst.
    cbn [pack]; rewrite join_nonempty by assumption; simpl negb; cbv iota.
    destruct (jlen (join [32] g ++ [32] ++ w) <=? m) eqn:T.
    + apply Z.leb_le in T. rewrite <- join_snoc in T |- * by assumption.
      destruct (IH (g ++ [w])) as (h & gs & Hp & Hgr); auto.
      * destruct g; discriminate.
      * apply Forall_app; auto.
      * exists (w :: h), gs.
        replace ((g ++ [w]) ++ h) with (g ++ w :: h) in *
          by (rewrite <- app_assoc; reflexivity).
        replace ((g ++ [w]) ++ ws) with (g ++ w :: ws) in *
          by (rewrite <- app_assoc; reflexivity).
        split; assumption.
    + apply Z.leb_gt in T.
      destruct (IH [w]) as (h & gs & Hp & Hgr);
        [discriminate | constructor; [assumption | constructor] | assumption
        | intros Hl; simpl in Hl; lia | ].
      exists [], (([w] ++ h) :: gs). rewrite app_nil_r.
      change w with (join [32] [w]) at 1. rewrite Hp. split; [reflexivity|].
      destruct Hgr as (Hc & Hn & Hl & Hk).
      unfold greedy_groups; split; [|split; [|split]].
      * change (concat (g :: ([w] ++ h) :: gs))
          with (g ++ concat (([w] ++ h) :: gs)).
        rewrite Hc; reflexivity.
      * constructor; assumption.
      * constructor; assumption.
      * change (consec_ok m (g :: ([w] ++ h) :: gs))
          with (jlen (join [32] g) + 1 + jlen (hd [] ([w] ++ h)) > m
                /\ consec_ok m (([w] ++ h) :: gs)).
        split; [|exact Hk]. simpl hd. rewrite !jlen_app in T.
        unfold jlen at 2 in T; simpl length in T. lia.
Qed.

End Pack.

(** ** Lemmas on [wrapText] *)

Lemma split_ws_no_ws : forall s,
  Forall (Forall (fun c => is_ws c = false)) (split_ws s).
Proof.
  induction s as [|c r IH]; simpl; [repeat constructor|].
  destruct (is_ws c) eqn:Hc.
  - destruct (starts_ws r); [exact IH|constructor; [constructor|exact IH]].
  - destruct (split_ws r) as [|w ws] eqn:E;
      [exfalso; exact (split_ws_nonnil r E)|].
    inversion IH; subst. constructor; [constructor|]; assumption.
Qed.

Lemma words_good : forall s, Forall good_word (words s).
Proof.
  intros s; apply Forall_forall; intros w Hin.
  unfold words in Hin; apply filter_In in Hin as [Hin Hne].
  split; [destruct w; discriminate|].
  exact (proj1 (Forall_forall _ _) (split_ws_no_ws s) w Hin).
Qed.

Lemma wrap_para_words_eq : forall m p,
  wrap_para m p = match words p with [] => [[]] | ws => pack m [] ws end.
Proof.
  intros m p; unfold wrap_para; fold (words (trim p)); rewrite words_trim;
  reflexivity.
Qed.

Lemma wrap_para_empty : forall m p, words p = [] -> wrap_para m p = [[]].
Proof. intros m p H; rewrite wrap_para_words_eq, H; reflexivity. Qed.

Lemma wrap_para_groups : forall m p, words p <> [] ->
  exists gs, wrap_para m p = map (join [32]) gs /\ greedy_groups m (words p) gs.
Proof.
  intros m p Hne; rewrite wrap_para_words_eq.
  pose proof (words_good p) as Hg.
  destruct (words p) as [|w ws]; [congruence|].
  inversion Hg as [|? ? Hw Hws]; subst.
  change (pack m [] (w :: ws)) with (pack m (join [32] [w]) ws).
  destruct (pack_greedy m ws [w]) as (h & gs & Hp & Hgr);
    [discriminate | constructor; [assumption|constructor] | assumption
    | intros Hl; simpl in Hl; lia | ].
  exists (([w] ++ h) :: gs); split; assumption.
Qed.

Lemma wrap_para_words : forall m p,
  concat (map words (wrap_para m p)) = words p.
Proof.
  intros m p; rewrite wrap_para_words_eq.
  destruct (words p) as [|w ws] eqn:E; [reflexivity|].
  change (pack m [] (w :: ws)) with (pack m (join [32] []) (w :: ws)).
  rewrite pack_words; [reflexivity|constructor|].
  rewrite <- E; apply words_good.
Qed.

Lemma concat_map_flat_map : forall (A B C : Type) (f : B -> list C)
  (g : A -> list B) (P : list A),
  concat (map f (flat_map g P)) = concat (map (fun p => concat (map f (g p))) P).
Proof.
  intros A B C f g P; induction P as [|p P IH]; [reflexivity|].
  simpl; rewrite map_app, concat_app, IH; reflexivity.
Qed.

Lemma wrapText_words : forall t m,
  words (join [32] (wrapText t m)) = words (strip_cr t).
Proof.
  intros t m.
  rewrite words_join by reflexivity; unfold wrapText.
  rewrite concat_map_flat_map.
  rewrite (map_ext _ _ (wrap_para_words m)).
  rewrite <- (join_split_on 10 (strip_cr t)) at 2.
  rewrite words_join by reflexivity; reflexivity.
Qed.

Lemma jlen_nonneg : forall s, 0 <= jlen s.
Proof. intros s; unfold jlen; lia. Qed.

Lemma jlen_in_join : forall w g, In w g -> jlen w <= jlen (join [32] g).
Proof.
  intros w g; induction g as [|x g IH]; intros Hin; [destruct Hin|].
  destruct g as [|y g'].
  - destruct Hin as [<-|[]]; simpl; lia.
  - change (join [32] (x :: y :: g')) with (x ++ [32] ++ join [32] (y :: g')).
    rewrite !jlen_app.
    pose proof (jlen_nonneg x); pose proof (jlen_nonneg (join [32] (y :: g'))).
    assert (jlen [32] = 1) by reflexivity.
    destruct Hin as [<-|Hin]; [lia|specialize (IH Hin); lia].
Qed.

Lemma join_app : forall sep a b, a <> [] -> b <> [] ->
  join sep (a ++ b) = join sep a ++ sep ++ join sep b.
Proof.
  intros sep a b; induction a as [|x a IH]; intros Ha Hb; [congruence|].
  destruct a as [|y a'].
  - destruct b as [|z b']; [congruence|]; reflexivity.
  - change ((x :: y :: a') ++ b) with (x :: ((y :: a') ++ b)).
    change (join sep (x :: (y :: a') ++ b))
      with (x ++ sep ++ join sep ((y :: a') ++ b)).
    rewrite IH by (discriminate || assumption).
    change (join sep (x :: y :: a')) with (x ++ sep ++ join sep (y :: a')).
    rewrite <- !app_assoc; reflexivity.
Qed.

Lemma wrap_para_shape : forall m p, Forall (line_shape m) (wrap_para m p).
Proof.
  intros m p.
  destruct (words p) as [|w ws] eqn:E.
  - rewrite wrap_para_empty by exact E; repeat constructor; left; reflexivity.
  - destruct (wrap_para_groups m p) as (gs & Hw & Hc & Hn & Hl & _);
      [rewrite E; discriminate|].
    rewrite Hw; apply Forall_map, Forall_forall; intros g Hin; right.
    exists g; split; [reflexivity|]; split; [|split].
    + exact (proj1 (Forall_forall _ _) Hn g Hin).
    + apply Forall_forall; intros x Hx.
      apply (proj1 (Forall_forall _ _) (words_good p)).
      rewrite <- Hc; apply in_concat; eauto.
    + exact (proj1 (Forall_forall _ _) Hl g Hin).
Qed.

Lemma wrapText_shape : forall t m, Forall (line_shape m) (wrapText t m).
Proof.
  intros t m; unfold wrapText; apply Forall_forall; intros l Hl.
  apply in_flat_map in Hl as (p & _ & Hl).
  exact (proj1 (Forall_forall _ _) (wrap_para_shape m p) l Hl).
Qed.

Lemma wrap_para_nonnil : forall m p, wrap_para m p <> [].
Proof.
  intros m p.
  destruct (words p) as [|w ws] eqn:E.
  - rewrite wrap_para_empty by exact E; discriminate.
  - destruct (wrap_para_groups m p) as (gs & Hw & Hc & _);
      [rewrite E; discriminate|].
    rewrite Hw; destruct gs; [rewrite E in Hc; discriminate|discriminate].
Qed.

Lemma wrapText_nonnil : forall t m, wrapText t m <> [].
Proof.
  intros t m; unfold wrapText.
  destruct (split_on 10 (strip_cr t)) as [|p P] eqn:E;
    [exfalso; exact (split_on_nonnil _ _ E)|].
  simpl; intros H; apply app_eq_nil in H as [H _].
  exact (wrap_para_nonnil m p H).
Qed.

Lemma pack_fits : forall m ws g, g <> [] -> Forall good_word g ->
  Forall good_word ws ->
  (ws = [] \/ jlen (join [32] (g ++ ws)) <= m) ->
  pack m (join [32] g) ws = [join [32] (g ++ ws)].
Proof.
  intros m; induction ws as [|w ws IH]; intros g Hne Hg Hws Hfit.
  - cbn [pack]; rewrite join_nonempty, app_nil_r by assumption; reflexivity.
  - inversion Hws as [|? ? Hw Hws']; subst.
    cbn [pack]; rewrite join_nonempty by assumption; simpl negb; cbv iota.
    rewrite <- join_snoc by assumption.
    assert (Hle : jlen (join [32] (g ++ [w])) <= m).
    { destruct Hfit as [Hf|Hf]; [discriminate|].
      destruct ws as [|v ws'].
      - exact Hf.
      - replace (g ++ w :: v :: ws') with ((g ++ [w]) ++ v :: ws') in Hf
          by (rewrite <- app_assoc; reflexivity).
        rewrite join_app, !jlen_app in Hf by (destruct g; discriminate).
        pose proof (jlen_nonneg [32]); pose proof (jlen_nonneg (join [32] (v :: ws'))).
        lia. }
    apply Z.leb_le in Hle; rewrite Hle.
    rewrite IH.
    + rewrite <- app_assoc; reflexivity.
    + destruct g; discriminate.
    + apply Forall_app; auto.
    + assumption.
    + destruct Hfit as [Hf|Hf]; [discriminate|].
      right; rewrite <- app_assoc; exact Hf.
Qed.

Lemma rewrap_line : forall m l, line_shape m l -> wrap_para m l = [l].
Proof.
  intros m l [->|(h & -> & Hne & Hg & Hl)]; [reflexivity|].
  rewrite wrap_para_words_eq, words_join_good by exact Hg.
  destruct h as [|w ws]; [congruence|].
  inversion Hg as [|? ? Hw Hws]; subst.
  change (pack m [] (w :: ws)) with (pack m (join [32] [w]) ws).
  apply pack_fits; [discriminate|constructor; [assumption|constructor]|assumption|].
  destruct ws as [|v ws']; [left; reflexivity|right; apply Hl; simpl; lia].
Qed.

Lemma join_chars : forall (P : Z -> Prop) sep L,
  Forall P sep -> Forall (Forall P) L -> Forall P (join sep L).
Proof.
  intros P sep L Hs; induction L as [|x L IH]; intros HL; [constructor|].
  inversion HL; subst.
  destruct L as [|y L']; [assumption|].
  change (join sep (x :: y :: L')) with (x ++ sep ++ join sep (y :: L')).
  apply Forall_app; split; [assumption|apply Forall_app; split; auto].
Qed.

Lemma line_shape_chars : forall m l, line_shape m l ->
  Forall (fun c => c <> 10 /\ c <> 13) l.
Proof.
  intros m l [->|(h & -> & _ & Hg & _)]; [constructor|].
  apply join_chars; [repeat constructor; discriminate|].
  apply Forall_forall; intros w Hw.
  destruct (proj1 (Forall_forall _ _) Hg w Hw) as [_ Hc].
  apply Forall_forall; intros c Hin.
  pose proof (proj1 (Forall_forall _ _) Hc c Hin) as Hc'.
  split; intros ->; discriminate.
Qed.

Lemma strip_cr_id : forall s, Forall (fun c => c <> 13) s -> strip_cr s = s.
Proof.
  induction s as [|c s IH]; intros H; [reflexivity|].
  inversion H; subst; unfold strip_cr; simpl.
  rewrite (proj2 (Z.eqb_neq c 13)) by assumption; simpl.
  f_equal; apply IH; assumption.
Qed.

Lemma split_on_no_sep : forall sep x, ~ In sep x -> split_on sep x = [x].
Proof.
  intros sep; induction x as [|c x IH]; intros Hn; [reflexivity|].
  rewrite split_on_cons.
  rewrite (proj2 (Z.eqb_neq c sep)) by (intros ->; apply Hn; left; reflexivity).
  rewrite IH by (intros Hi; apply Hn; right; exact Hi); reflexivity.
Qed.

Lemma split_on_app_sep : forall sep x s, ~ In sep x ->
  split_on sep (x ++ sep :: s) = x :: split_on sep s.
Proof.
  intros sep; induction x as [|c x IH]; intros s Hn.
  - simpl; rewrite Z.eqb_refl; reflexivity.
  - simpl app; rewrite split_on_cons.
    rewrite (proj2 (Z.eqb_neq c sep)) by (intros ->; apply Hn; left; reflexivity).
    rewrite IH by (intros Hi; apply Hn; right; exact Hi); reflexivity.
Qed.

Lemma split_on_join : forall sep L, L <> [] -> Forall (fun l => ~ In sep l) L ->
  split_on sep (join [sep] L) = L.
Proof.
  intros sep L; induction L as [|x L IH]; intros Hne HL; [congruence|].
  inversion HL; subst.
  destruct L as [|y L'].
  - apply split_on_no_sep; assumption.
  - change (join [sep] (x :: y :: L')) with (x ++ [sep] ++ join [sep] (y :: L')).
    replace (x ++ [sep] ++ join [sep] (y :: L'))
      with (x ++ sep :: join [sep] (y :: L')) by reflexivity.
    rewrite split_on_app_sep by assumption.
    f_equal; apply IH; [discriminate|assumption].
Qed.

Lemma flat_map_singleton : forall (A : Type) (f : A -> list A) L,
  (forall l, In l L -> f l = [l]) -> flat_map f L = L.
Proof.
  intros A f L; induction L as [|x L IH]; intros H; [reflexivity|].
  simpl; rewrite H by (left; reflexivity).
  rewrite IH by (intros l Hl; apply H; right; exact Hl); reflexivity.
Qed.

(** Re-wrapping the line-feed-joined output of [wrapText] at the same width
    gives the output back, whatever the line lengths. *)
Lemma wrapText_rewrap : forall t m,
  wrapText (join [10] (wrapText t m)) m = wrapText t m.
Proof.
  intros t m.
  pose proof (wrapText_shape t m) as Hs.
  assert (Hc : Forall (Forall (fun c => c <> 10 /\ c <> 13)) (wrapText t m)).
  { apply Forall_forall; intros l Hl.
    exact (line_shape_chars m l (proj1 (Forall_forall _ _) Hs l Hl)). }
  unfold wrapText at 1.
  rewrite strip_cr_id.
  2:{ apply join_chars; [repeat constructor; discriminate|].
      apply Forall_forall; intros l Hl.
      apply Forall_forall; intros c Hin.
      exact (proj2 (proj1 (Forall_forall _ _)
                      (proj1 (Forall_forall _ _) Hc l Hl) c Hin)). }
  rewrite split_on_join.
  - apply flat_map_singleton; intros l Hl.
    apply rewrap_line, (proj1 (Forall_forall _ _) Hs l Hl).
  - apply wrapText_nonnil.
  - apply Forall_forall; intros l Hl Hin.
    exact (proj1 (proj1 (Forall_forall _ _)
                    (proj1 (Forall_forall _ _) Hc l Hl) 10 Hin) eq_refl).
Qed.

(** ** Claims on wrapText *)

(** C4 (amended): [wrapText] removes every carriage return, splits the text
    on line feeds into paragraphs; a paragraph without words gives exactly
    one empty line; the words of any other paragraph are packed greedily
    (a word joins the current line, after one space, iff the joined line has
    length at most [maxChars]; otherwise it starts a new line); and the words
    of the space-joined output are exactly the words of the text with its
    carriage returns removed. *)
Theorem wrapText_spec : forall t m,
  wrapText t m = flat_map (wrap_para m) (split_on 10 (strip_cr t))
  /\ (forall p, words p = [] -> wrap_para m p = [[]])
  /\ (forall p, words p <> [] ->
        exists gs, wrap_para m p = map (join [32]) gs
                   /\ greedy_groups m (words p) gs)
  /\ words (join [32] (wrapText t m)) = words (strip_cr t).
Proof.
  intros t m; split; [reflexivity|].
  split; [apply wrap_para_empty|].
  split; [apply wrap_para_groups|].
  apply wrapText_words.
Qed.

(** C4 counterexample: in "a<CR>b" the carriage return separates two words,
    but [wrapText] deletes it first and outputs the single word "ab". *)
Lemma wrapText_cr_merges_words :
  wrapText (lit "a" ++ [13] ++ lit "b") 92 = [lit "ab"]
  /\ words (join [32] (wrapText (lit "a" ++ [13] ++ lit "b") 92))
     <> words (lit "a" ++ [13] ++ lit "b").
Proof. split; [reflexivity|vm_compute; discriminate]. Qed.

(** C8: when every output line of [wrapText] fits in [maxChars], wrapping
    the line-feed-joined output again at the same width gives the same
    lines. *)
Theorem wrapText_idempotent : forall t m,
  Forall (fun l => jlen l <= m) (wrapText t m) ->
  wrapText (join [10] (wrapText t m)) m = wrapText t m.
Proof. intros t m _; apply wrapText_rewrap. Qed.

Lemma wrapText_idempotent_witness :
  Forall (fun l => jlen l <= 5) (wrapText (lit "aa bb cc") 5)
  /\ wrapText (join [10] (wrapText (lit "aa bb cc") 5)) 5
     = wrapText (lit "aa bb cc") 5.
Proof.
  split.
  - vm_compute. repeat constructor; discriminate.
  - apply wrapText_idempotent. vm_compute. repeat constructor; discriminate.
Defined.

(** C10 (amended): every word of the text (after carriage returns are
    removed) that is longer than [maxChars] is an output line of its own,
    unchanged; an output line holding two or more words has length at most
    [maxChars]. *)
Theorem wrapText_long_word : forall t m,
  (forall w, In w (words (strip_cr t)) -> m < jlen w -> In w (wrapText t m))
  /\ (forall l, In l (wrapText t m) -> (2 <= length (words l))%nat ->
        jlen l <= m).
Proof.
  intros t m; split.
  - intros w Hin Hlong.
    rewrite <- (join_split_on 10 (strip_cr t)), words_join in Hin
      by reflexivity.
    apply in_concat in Hin as (ws & Hws & Hin).
    apply in_map_iff in Hws as (p & <- & Hp).
    destruct (wrap_para_groups m p) as (gs & Hw & Hc & Hn & Hl & _);
      [intros E; rewrite E in Hin; destruct Hin|].
    rewrite <- Hc in Hin; apply in_concat in Hin as (g & Hg & Hin).
    assert (Hg1 : g = [w]).
    { destruct g as [|x [|y g']]; [destruct Hin| |].
      - destruct Hin as [<-|[]]; reflexivity.
      - exfalso. pose proof (jlen_in_join w _ Hin).
        pose proof (proj1 (Forall_forall _ _) Hl _ Hg) as Hfit.
        assert (H2 : (2 <= length (x :: y :: g'))%nat) by (simpl; lia).
        specialize (Hfit H2). lia. }
    subst g. unfold wrapText; apply in_flat_map; exists p; split; [exact Hp|].
    rewrite Hw; apply in_map_iff; exists [w]; split; [reflexivity|exact Hg].
  - intros l Hl H2.
    pose proof (proj1 (Forall_forall _ _) (wrapText_shape t m) l Hl)
      as [->|(h & -> & _ & Hg & Hfit)]; [simpl in H2; lia|].
    rewrite words_join_good in H2 by exact Hg; apply Hfit, H2.
Qed.

(** C10 counterexample: "abcd<CR>efgh" has the word "abcd", longer than 3,
    yet "abcd" is not an output line: [wrapText] yields "abcdefgh". *)
Lemma wrapText_cr_long_word :
  In (lit "abcd") (words (lit "abcd" ++ [13] ++ lit "efgh"))
  /\ 3 < jlen (lit "abcd")
  /\ wrapText (lit "abcd" ++ [13] ++ lit "efgh") 3 = [lit "abcdefgh"]
  /\ ~ In (lit "abcd") (wrapText (lit "abcd" ++ [13] ++ lit "efgh") 3).
Proof.
  split; [vm_compute; left; reflexivity|].
  split; [vm_compute; reflexivity|].
  split; [reflexivity|].
  vm_compute; intros [H|[]]; discriminate.
Qed.

(** ** Claims on buildPaperLines *)

Lemma forEach_idx_app : forall (A B : Type) (f : Z -> A -> list B) l1 l2 i,
  forEach_idx f i (l1 ++ l2)
  = forEach_idx f i l1 ++ forEach_idx f (i + Z.of_nat (length l1)) l2.
Proof.
  intros A B f l1; induction l1 as [|x l1 IH]; intros l2 i.
  - simpl; rewrite Z.add_0_r; reflexivity.
  - simpl; rewrite IH, app_assoc.
    do 2 f_equal; lia.
Qed.

(** ** Binary64 arithmetic on integers *)

Lemma shr_1_double : forall k, 0 <= k ->
  shr_1 {| shr_m := 2 * k; shr_r := false; shr_s := false |}
  = {| shr_m := k; shr_r := false; shr_s := false |}.
Proof. intros [|p|p] Hk; [reflexivity|reflexivity|lia]. Qed.

Lemma pow_xI : forall p, 2 ^ Zpos p~1 = 2 * (2 ^ Zpos p * 2 ^ Zpos p).
Proof. intros p; assert (E : Zpos p~1 = Zpos p + Zpos p + 1) by lia; rewrite E, !Z.pow_add_r by lia; ring. Qed.
Lemma pow_xO : forall p, 2 ^ Zpos p~0 = 2 ^ Zpos p * 2 ^ Zpos p.
Proof. intros p; assert (E : Zpos p~0 = Zpos p + Zpos p) by lia; rewrite E, !Z.pow_add_r by lia; ring. Qed.

Lemma iter_shr_1 : forall p k, 0 <= k ->
  iter_pos shr_1 p {| shr_m := k * 2 ^ Zpos p; shr_r := false; shr_s := false |}
  = {| shr_m := k; shr_r := false; shr_s := false |}.
Proof.
  induction p as [p IH|p IH|]; intros k Hk; cbn [iter_pos].
  - rewrite pow_xI.
    replace (k * (2 * (2 ^ Zpos p * 2 ^ Zpos p))) with (2 * ((k * 2 ^ Zpos p) * 2 ^ Zpos p)) by ring.
    rewrite shr_1_double by (pose proof (Z.pow_nonneg 2 (Zpos p)); nia).
    rewrite IH by (pose proof (Z.pow_nonneg 2 (Zpos p)); nia). apply IH; exact Hk.
  - rewrite pow_xO, Z.mul_assoc.
    rewrite IH by (pose proof (Z.pow_nonneg 2 (Zpos p)); nia). apply IH; exact Hk.
  - rewrite Z.pow_1_r, Z.mul_comm. apply shr_1_double; exact Hk.
Qed.

Lemma digits2_pos_size : forall p, digits2_pos p = Pos.size p.
Proof. induction p; simpl; congruence. Qed.

Lemma Zdigits2_log2 : forall n, 0 < n -> Zdigits2 n = Z.log2 n + 1.
Proof.
  intros [|p|p] H; try lia. cbn [Zdigits2]. rewrite digits2_pos_size.
  destruct p; simpl; lia.
Qed.

Lemma shr_exact : forall k n e, 0 <= k -> 0 <= n ->
  shr {| shr_m := k * 2 ^ n; shr_r := false; shr_s := false |} e n
  = ({| shr_m := k; shr_r := false; shr_s := false |}, e + n).
Proof.
  intros k [|p|p] e Hk Hn; try lia.
  - simpl. rewrite Z.mul_1_r, Z.add_0_r. reflexivity.
  - unfold shr. rewrite iter_shr_1 by exact Hk. reflexivity.
Qed.


Lemma fexp_of_range : forall N, 0 < N < 2 ^ 53 -> -1074 <= fexp_of N <= 0.
Proof.
  intros N HN. assert (Z.log2 N < 53) by (apply Z.log2_lt_pow2; lia).
  pose proof (Z.log2_nonneg N). unfold fexp_of, emin. lia.
Qed.

Lemma Zdigits2_shift : forall N k, 0 < N -> 0 <= k ->
  Zdigits2 (N * 2 ^ k) + - k = Z.log2 N + 1.
Proof.
  intros N k HN Hk.
  rewrite Zdigits2_log2 by (pose proof (Z.pow_pos_nonneg 2 k); nia).
  rewrite Z.log2_mul_pow2 by lia. lia.
Qed.

Lemma round_aux_exact : forall s N k, 0 < N < 2 ^ 53 -> - fexp_of N <= k ->
  exists m, binary_round_aux 53 1024 s (N * 2 ^ k) (- k) loc_Exact
            = S754_finite s m (fexp_of N) /\ Zpos m = N * 2 ^ (- fexp_of N).
Proof.
  intros s N k HN Hk.
  pose proof (fexp_of_range N HN) as Hf.
  set (f := fexp_of N) in *.
  unfold binary_round_aux, shr_fexp, shr_record_of_loc.
  rewrite Zdigits2_shift by lia.
  change (fexp 53 1024 (Z.log2 N + 1)) with f.
  replace (N * 2 ^ k) with (N * 2 ^ (- f) * 2 ^ (f - - k))
    by (rewrite <- Z.mul_assoc, <- Z.pow_add_r by lia; f_equal; f_equal; lia).
  rewrite shr_exact by (try lia; pose proof (Z.pow_pos_nonneg 2 (- f)); nia).
  replace (- k + (f - - k)) with f by lia.
  cbn [loc_of_shr_record shr_m round_nearest_even].
  assert (Hd2 : Zdigits2 (N * 2 ^ (- f)) + f = Z.log2 N + 1)
    by (pose proof (Zdigits2_shift N (- f)) as H; rewrite Z.opp_involutive in H; apply H; lia).
  rewrite Hd2.
  change (fexp 53 1024 (Z.log2 N + 1)) with f.
  rewrite Z.sub_diag.
  cbn [shr shr_m].
  assert (Hp : 0 < N * 2 ^ (- f)) by (pose proof (Z.pow_pos_nonneg 2 (- f)); nia).
  destruct (N * 2 ^ (- f)) as [|m|m] eqn:E; try lia.
  exists m. replace (- - f) with f by lia. destruct (Z.leb_spec f (1024 - 53)); [split; reflexivity|lia].
Qed.

Lemma Pos_iter_xO : forall d m, Zpos (Pos.iter xO m d) = Zpos m * 2 ^ Zpos d.
Proof.
  induction d as [|d IH] using Pos.peano_ind; intros m.
  - simpl. lia.
  - rewrite Pos.iter_succ, Pos2Z.inj_succ, Z.pow_succ_r by lia.
    change (Zpos (Pos.iter xO m d)~0) with (2 * Zpos (Pos.iter xO m d)).
    rewrite IH. ring.
Qed.

Lemma normalize_int_exact : forall s M N k, 0 < N < 2 ^ 53 -> 0 <= k ->
  Zpos M = N * 2 ^ k ->
  exists m, binary_normalize 53 1024 (cond_Zopp s (Zpos M)) (- k) false
            = S754_finite s m (fexp_of N) /\ Zpos m = N * 2 ^ (- fexp_of N).
Proof.
  intros s M N k HN Hk HM.
  pose proof (fexp_of_range N HN) as Hf.
  assert (Hnorm : binary_normalize 53 1024 (cond_Zopp s (Zpos M)) (- k) false
                  = binary_round 53 1024 s M (- k)) by (destruct s; reflexivity).
  rewrite Hnorm. unfold binary_round.
  change (Zpos (digits2_pos M)) with (Zdigits2 (Zpos M)).
  rewrite HM, Zdigits2_shift by lia.
  change (fexp 53 1024 (Z.log2 N + 1)) with (fexp_of N).
  unfold shl_align.
  destruct (fexp_of N - - k) as [|d|d] eqn:Ed.
  - rewrite HM. apply round_aux_exact; lia.
  - rewrite HM. apply round_aux_exact; lia.
  - rewrite Pos_iter_xO, HM.
    replace (N * 2 ^ k * 2 ^ Zpos d) with (N * 2 ^ (- fexp_of N))
      by (rewrite <- Z.mul_assoc, <- Z.pow_add_r by lia; f_equal; f_equal; lia).
    pose proof (round_aux_exact s N (- fexp_of N) HN ltac:(lia)) as H.
    rewrite Z.opp_involutive in H. exact H.
Qed.

Lemma shl_align_value : forall m e ez, ez <= e ->
  Zpos (fst (shl_align m e ez)) = Zpos m * 2 ^ (e - ez).
Proof.
  intros m e ez H. unfold shl_align.
  destruct (ez - e) as [|d|d] eqn:Ed.
  - replace (e - ez) with 0 by lia. simpl. lia.
  - lia.
  - cbn [fst]. rewrite Pos_iter_xO. do 2 f_equal. lia.
Qed.

Lemma Z2SF_pos : forall n, 0 < n < 2 ^ 53 ->
  exists m, Z2SF n = S754_finite false m (fexp_of n) /\ Zpos m = n * 2 ^ (- fexp_of n).
Proof.
  intros n Hn. destruct n as [|p|p]; try lia.
  apply (normalize_int_exact false p (Zpos p) 0); [lia|lia|ring].
Qed.

Lemma Z2SF_neg : forall n, - 2 ^ 53 < n < 0 ->
  exists m e, Z2SF n = S754_finite true m e.
Proof.
  intros n Hn. destruct n as [|p|p]; try lia.
  destruct (normalize_int_exact true p (Zpos p) 0) as (m & Hm & _); [lia|lia|ring|].
  exists m, (fexp_of (Zpos p)). exact Hm.
Qed.

Lemma Z2SF_65 : Z2SF 65 = S754_finite false (65 * 2 ^ 46) (-46).
Proof. vm_compute. reflexivity. Qed.

Lemma answer_letter_int : forall n, - 2 ^ 53 < n <= 2 ^ 53 - 66 ->
  answer_letter (Z2SF n) = [(65 + Z.max 0 n) mod 65536]%list.
Proof.
  intros n Hn. unfold answer_letter, fromCharCode_num.
  destruct (Z.lt_trichotomy n 0) as [Hlt|[->|Hgt]].
  - destruct (Z2SF_neg n ltac:(lia)) as (m & e & ->).
    rewrite Z.max_l by lia. vm_compute. reflexivity.
  - vm_compute. reflexivity.
  - destruct (Z2SF_pos n ltac:(lia)) as (m & -> & Hm).
    pose proof (fexp_of_range n ltac:(lia)) as Hf.
    rewrite Z.max_r by lia.
    unfold Math_max, js_add. rewrite Z2SF_65.
    change (Z2SF 0) with (S754_zero false).
    change (SFcompare (S754_zero false) (S754_finite false m (fexp_of n))) with (Some Lt).
    cbv beta iota. cbn [SFadd].
    set (ez := IntDef.Z.min (-46) (fexp_of n)).
    assert (Hez : ez = Z.min (-46) (fexp_of n)) by reflexivity.
    assert (HM : Zpos (fst (shl_align (65 * 2 ^ 46) (-46) ez))
                 + Zpos (fst (shl_align m (fexp_of n) ez))
                 = (65 + n) * 2 ^ (- ez)).
    { rewrite !shl_align_value by lia. rewrite Hm.
      change (Zpos (65 * 2 ^ 46)) with (65 * 2 ^ 46).
      rewrite <- !Z.mul_assoc, <- !Z.pow_add_r by lia.
      replace (46 + (-46 - ez)) with (- ez) by lia.
      replace (- fexp_of n + (fexp_of n - ez)) with (- ez) by lia. ring. }
    cbn [cond_Zopp]. rewrite HM.
    assert (Hpos : 0 < (65 + n) * 2 ^ (- ez))
      by (pose proof (Z.pow_pos_nonneg 2 (- ez) ltac:(lia)); nia).
    destruct ((65 + n) * 2 ^ (- ez)) as [|M|M] eqn:EM; try lia.
    destruct (normalize_int_exact false M (65 + n) (- ez)) as (m' & Hr & Hm');
      [lia|lia|exact (eq_sym EM)|].
    rewrite Z.opp_involutive in Hr. change (Zpos M) with (cond_Zopp false (Zpos M)).
    rewrite Hr. cbn [ToUint16 cond_Zopp].
    pose proof (fexp_of_range (65 + n) ltac:(lia)) as Hf'.
    rewrite Hm'.
    set (f' := fexp_of (65 + n)) in *.
    replace (Z.shiftl ((65 + n) * 2 ^ (- f')) f') with (65 + n); [reflexivity|].
    replace f' with (- - f') at 2 by lia.
    rewrite Z.shiftl_opp_r, Z.shiftr_div_pow2 by lia.
    rewrite Z.div_mul; [reflexivity|].
    pose proof (Z.pow_pos_nonneg 2 (- f')); lia.
Qed.

(** C5 (amended): the answer-key line of the k-th question (0-based) is
    "k+1. " followed by [String.fromCharCode(65 + Math.max(0, idx))] with
    the addition in binary64, a missing index counting as 0; it follows the
    answer-key heading and the blocks of the earlier questions, and is
    followed by the explanation lines and a blank line.  For an integer
    index n with -2^53 < n <= 2^53 - 66 the letter is the code unit
    (65 + max(0, n)) mod 2^16, so the character at code point 65 + n for
    0 <= n <= 65470, without any bound from the number of options (index 9
    gives J); a missing index gives "1. A" for the first question; in the
    sample paper with index 1 the key reads "1. B" followed by
    "Explanation: 2+2=4". *)
Theorem answer_key_line :
  (forall paper k q, nth_error (questions paper) k = Some q ->
   let ansIdx := match correctAnswerIndex q with Some n => n | None => Z2SF 0 end in
   let expl := safeText (explanation q) [] in
   buildPaperLines paper
   = paper_body paper ++ [answer_heading; blank]
     ++ forEach_idx answer_lines 0 (firstn k (questions paper))
     ++ mkLine (num_str (Z.of_nat k + 1) ++ lit ". "
                ++ fromCharCode_num (js_add (Z2SF 65) (Math_max (Z2SF 0) ansIdx)))
               (Some 11) (Some true)
     :: (if nonempty expl
         then map (sized 10) (wrapText (lit "Explanation: " ++ expl) 92)
         else [])
     ++ blank
     :: forEach_idx answer_lines (Z.of_nat k + 1) (skipn (S k) (questions paper)))
  /\ (forall n, - 2 ^ 53 < n <= 2 ^ 53 - 66 ->
        answer_letter (Z2SF n) = [(65 + Z.max 0 n) mod 65536])
  /\ (forall n, 0 <= n <= 65470 -> answer_letter (Z2SF n) = [65 + n])
  /\ answer_letter (Z2SF 9) = lit "J"
  /\ (forall q, correctAnswerIndex q = None ->
        exists post, answer_lines 0 q
          = mkLine (lit "1. A") (Some 11) (Some true) :: post)
  /\ (exists pre, buildPaperLines (sample_paper (Some (Z2SF 1)))
        = pre ++ [mkLine (lit "1. B") (Some 11) (Some true);
                  sized 10 (lit "Explanation: 2+2=4"); blank]).
Proof.
  split; [|split; [exact answer_letter_int|split; [|split; [vm_compute; reflexivity|split]]]].
  - intros paper k q Hk ansIdx expl.
    unfold buildPaperLines.
    rewrite <- (firstn_skipn k (questions paper)) at 1.
    pose proof (nth_error_split _ _ Hk) as (l1 & l2 & Hq & Hl1).
    assert (Hf : firstn k (questions paper) = l1)
      by (rewrite Hq, <- Hl1, firstn_app, Nat.sub_diag, firstn_all; simpl;
          rewrite app_nil_r; reflexivity).
    assert (Hs : skipn k (questions paper) = q :: l2)
      by (rewrite Hq, <- Hl1, skipn_app, Nat.sub_diag, skipn_all; reflexivity).
    assert (Hs' : skipn (S k) (questions paper) = l2)
      by (rewrite Hq, <- Hl1; rewrite skipn_app;
          replace (S (length l1) - length l1)%nat with 1%nat by lia;
          rewrite skipn_all2 by lia; reflexivity).
    rewrite Hs, Hs', forEach_idx_app, Hf, <- Hl1. cbn [forEach_idx].
    rewrite Z.add_0_l. unfold answer_lines.
    assert (E : forall (a : Line) b c, (a :: (b ++ [blank])) ++ c
                                       = a :: b ++ blank :: c)
      by (intros; rewrite <- app_comm_cons, <- app_assoc; reflexivity).
    rewrite E; reflexivity.
  - intros n Hn. rewrite answer_letter_int by lia.
    rewrite Z.max_r, Z.mod_small by lia. reflexivity.
  - intros q Hq; unfold answer_lines; rewrite Hq.
    eexists; reflexivity.
  - exists (firstn (length (buildPaperLines (sample_paper (Some (Z2SF 1)))) - 3)
                   (buildPaperLines (sample_paper (Some (Z2SF 1))))).
    vm_compute; reflexivity.
Qed.

(** C5 counterexample: with index 65471 the key letter is the code unit
    (65 + 65471) mod 2^16 = 0, not the character at code point 65536; with
    index 2^53 the sum 65 + 2^53 rounds to 2^53 + 64 and the letter is
    "@". *)
Lemma answer_key_letter_wraps :
  (exists pre, buildPaperLines (sample_paper (Some (Z2SF 65471)))
     = pre ++ [mkLine (lit "1. " ++ [0]) (Some 11) (Some true);
               sized 10 (lit "Explanation: 2+2=4"); blank])
  /\ ~ In (mkLine (lit "1. " ++ [55296; 56320]) (Some 11) (Some true))
          (buildPaperLines (sample_paper (Some (Z2SF 65471))))
  /\ (exists pre, buildPaperLines (sample_paper (Some (Z2SF (2 ^ 53))))
     = pre ++ [mkLine (lit "1. @") (Some 11) (Some true);
               sized 10 (lit "Explanation: 2+2=4"); blank]).
Proof.
  split; [|split].
  - exists (firstn (length (buildPaperLines (sample_paper (Some (Z2SF 65471)))) - 3)
                   (buildPaperLines (sample_paper (Some (Z2SF 65471))))).
    vm_compute; reflexivity.
  - vm_compute. intros H; repeat (destruct H as [H|H]; [discriminate H|]); exact H.
  - exists (firstn (length (buildPaperLines (sample_paper (Some (Z2SF (2 ^ 53))))) - 3)
                   (buildPaperLines (sample_paper (Some (Z2SF (2 ^ 53)))))).
    vm_compute; reflexivity.
Qed.

Example buildPdf_small :
  firstn 9 (buildPdfFromLines [sized 11 (lit "Hi (x)")])
  = map (fun a => Z.of_nat (nat_of_ascii a)) (list_ascii_of_string "%PDF-1.4"%string) ++ [10].
Proof. vm_compute. reflexivity. Qed.

(** ** Claims on the page layout *)

Lemma shows_app : forall ps qs, shows (ps ++ qs) = shows ps ++ shows qs.
Proof. intros ps qs; unfold shows; rewrite map_app, concat_app; reflexivity. Qed.

Lemma shows_one : forall p, shows [p] = filter is_show p.
Proof. intros p; unfold shows; simpl; rewrite app_nil_r; reflexivity. Qed.

Lemma layout_step_shows : forall st ln,
  shows (pages (layout_step st ln) ++ [current (layout_step st ln)])
  = shows (pages st ++ [current st]) ++ [OpTj (text ln)].
Proof.
  intros st ln; unfold layout_step.
  destruct (y st - 100 * (line_size ln + lineGap) <? M_BOTTOM); cbn [pages current];
    rewrite !shows_app, !shows_one, !filter_app; simpl;
    rewrite <- ?app_assoc, ?app_nil_r; reflexivity.
Qed.

Lemma layout_fold_shows : forall lines st,
  shows (pages (fold_left layout_step lines st)
         ++ [current (fold_left layout_step lines st)])
  = shows (pages st ++ [current st]) ++ map (fun ln => OpTj (text ln)) lines.
Proof.
  induction lines as [|ln lines IH]; intros st; simpl.
  - rewrite app_nil_r; reflexivity.
  - rewrite IH, layout_step_shows, <- app_assoc; reflexivity.
Qed.

Lemma layout_shows_eq : forall lines,
  shows (layout lines) = map (fun ln => OpTj (text ln)) lines.
Proof.
  intros lines; unfold layout.
  rewrite shows_app, shows_one, filter_app.
  pose proof (layout_fold_shows lines layout_init) as H.
  rewrite shows_app, shows_one in H. simpl in H |- *.
  rewrite app_nil_r; exact H.
Qed.

(** C1: the show-text operations of the pages of [buildPdfFromLines], page
    after page, are exactly one per input line, in input order; so their
    total number over all pages is the number of lines. *)
Theorem layout_one_show_per_line : forall lines,
  shows (layout lines) = map (fun ln => OpTj (text ln)) lines
  /\ fold_right Nat.add 0%nat
       (map (fun p => length (filter is_show p)) (layout lines))
     = length lines.
Proof.
  intros lines; split; [apply layout_shows_eq|].
  rewrite <- (length_map (fun ln => OpTj (text ln)) lines), <- layout_shows_eq.
  unfold shows; induction (layout lines) as [|p ps IH]; [reflexivity|].
  simpl; rewrite length_app, IH; reflexivity.
Qed.

Lemma replace_char_app : forall c r a b,
  replace_char c r (a ++ b) = replace_char c r a ++ replace_char c r b.
Proof. intros; unfold replace_char; apply flat_map_app. Qed.

Lemma pdfStringEscape_cons : forall x s,
  pdfStringEscape (x :: s) = pdfStringEscape [x] ++ pdfStringEscape s.
Proof.
  intros x s; unfold pdfStringEscape.
  change (x :: s) with ([x] ++ s); rewrite !replace_char_app; reflexivity.
Qed.

Lemma pdfStringEscape_one : forall x, pdfStringEscape [x] = esc_char x.
Proof.
  intros x; unfold pdfStringEscape, replace_char, esc_char; simpl.
  destruct (x =? 92) eqn:E1.
  - apply Z.eqb_eq in E1; subst; reflexivity.
  - simpl. destruct (x =? 40) eqn:E2.
    + apply Z.eqb_eq in E2; subst; reflexivity.
    + simpl. destruct (x =? 41) eqn:E3.
      * apply Z.eqb_eq in E3; subst; reflexivity.
      * reflexivity.
Qed.

Lemma pdfStringEscape_spec : forall s, pdfStringEscape s = flat_map esc_char s.
Proof.
  induction s as [|x s IH]; [reflexivity|].
  rewrite pdfStringEscape_cons, pdfStringEscape_one, IH; reflexivity.
Qed.

Lemma read_literal_esc : forall s, read_literal (flat_map esc_char s) = Some s.
Proof.
  induction s as [|x s IH]; [reflexivity|].
  change (flat_map esc_char (x :: s)) with (esc_char x ++ flat_map esc_char s).
  unfold esc_char at 1.
  destruct ((x =? 92) || (x =? 40) || (x =? 41)) eqn:E.
  - simpl. rewrite E, IH; reflexivity.
  - simpl. apply orb_false_iff in E as [E E3]; apply orb_false_iff in E as [E1 E2].
    rewrite E1, E2, E3, IH; reflexivity.
Qed.

(** C6: [pdfStringEscape] puts a backslash before every backslash, '(' and
    ')' (the sequential replacements, backslashes first, amount to this);
    the escaped text reads back as the original text with no bare
    parenthesis; and the show-text operations of the pages render, one per
    line and in order, as "(" ++ pdfStringEscape text ++ ") Tj". *)
Theorem show_ops_escaped :
  (forall s, pdfStringEscape s = flat_map esc_char s)
  /\ (forall s, read_literal (pdfStringEscape s) = Some s)
  /\ (forall lines, map render (shows (layout lines))
        = map (fun ln => lit "(" ++ pdfStringEscape (text ln) ++ lit ") Tj") lines).
Proof.
  split; [exact pdfStringEscape_spec|split].
  - intros s; rewrite pdfStringEscape_spec; apply read_literal_esc.
  - intros lines; rewrite layout_shows_eq, map_map; reflexivity.
Qed.

Lemma layout_step_height : forall st ln,
  0 <= 100 * (line_size ln + lineGap) <= usable_height ->
  M_BOTTOM <= y st <= PAGE_H - M_TOP ->
  M_BOTTOM <= y (layout_step st ln) <= PAGE_H - M_TOP
  /\ Z.of_nat (length (pages st)) * usable_height + (PAGE_H - M_TOP - y st)
     + 100 * (line_size ln + lineGap)
     <= Z.of_nat (length (pages (layout_step st ln))) * usable_height
        + (PAGE_H - M_TOP - y (layout_step st ln)).
Proof.
  intros st ln Hl Hy; unfold layout_step.
  unfold usable_height, PAGE_H, M_TOP, M_BOTTOM in *.
  destruct (y st - 100 * (line_size ln + lineGap) <? 5600) eqn:E;
    cbn [pages current y].
  - apply Z.ltb_lt in E. rewrite length_app; simpl length. lia.
  - apply Z.ltb_ge in E. lia.
Qed.

Lemma layout_fold_height : forall lines st,
  Forall (fun ln => 0 <= 100 * (line_size ln + lineGap) <= usable_height) lines ->
  M_BOTTOM <= y st <= PAGE_H - M_TOP ->
  M_BOTTOM <= y (fold_left layout_step lines st) <= PAGE_H - M_TOP
  /\ Z.of_nat (length (pages st)) * usable_height + (PAGE_H - M_TOP - y st)
     + total_height lines
     <= Z.of_nat (length (pages (fold_left layout_step lines st))) * usable_height
        + (PAGE_H - M_TOP - y (fold_left layout_step lines st)).
Proof.
  induction lines as [|ln lines IH]; intros st Hl Hy.
  - simpl; split; [exact Hy|lia].
  - inversion Hl as [|? ? Hln Hls]; subst.
    destruct (layout_step_height st ln Hln Hy) as [Hy' Hs].
    destruct (IH (layout_step st ln) Hls Hy') as [Hy'' Hs'].
    simpl fold_left; split; [exact Hy''|].
    change (total_height (ln :: lines))
      with (100 * (line_size ln + lineGap) + total_height lines).
    lia.
Qed.

(** C3 (amended): [buildPdfFromLines] always emits at least one page and,
    when every line height (fontSize + 3) is between 0 and the usable
    height, at least ceil(total height / usable height) pages; pages are
    filled greedily, so the count can be larger than that ceiling. *)
Theorem layout_page_count : forall lines,
  (1 <= length (layout lines))%nat
  /\ (Forall (fun ln => 0 <= 100 * (line_size ln + lineGap) <= usable_height) lines ->
      claimed_page_count lines <= Z.of_nat (length (layout lines))).
Proof.
  intros lines; unfold layout; rewrite length_app; simpl length.
  split; [lia|intros Hl].
  destruct (layout_fold_height lines layout_init Hl) as [Hy Hs];
    [unfold layout_init, M_BOTTOM, PAGE_H, M_TOP; simpl; lia|].
  set (st := fold_left layout_step lines layout_init) in *.
  assert (H0 : length (pages layout_init) = 0%nat) by reflexivity.
  assert (Hy0 : y layout_init = PAGE_H - M_TOP) by reflexivity.
  rewrite H0, Hy0 in Hs.
  assert (Hu : usable_height = 72989) by reflexivity.
  unfold PAGE_H, M_TOP, M_BOTTOM in *.
  assert (H1 : total_height lines + usable_height - 1
               < usable_height * (Z.of_nat (length (pages st)) + 2)) by lia.
  assert (Hpos : 0 < usable_height) by lia.
  pose proof (Z.div_lt_upper_bound _ _ _ Hpos H1) as Hd.
  unfold claimed_page_count; rewrite Nat2Z.inj_add; simpl Z.of_nat; lia.
Qed.

Lemma layout_page_count_witness :
  Forall (fun ln => 0 <= 100 * (line_size ln + lineGap) <= usable_height)
    (repeat (sized 11 []) 60)
  /\ claimed_page_count (repeat (sized 11 []) 60)
     <= Z.of_nat (length (layout (repeat (sized 11 []) 60))).
Proof.
  assert (H : Forall (fun ln => 0 <= 100 * (line_size ln + lineGap) <= usable_height)
                (repeat (sized 11 []) 60))
    by (apply Forall_forall; intros ln Hin; apply repeat_spec in Hin; subst;
        vm_compute; split; discriminate).
  split; [exact H|].
  apply (proj2 (layout_page_count (repeat (sized 11 []) 60))); exact H.
Defined.

(** C3 counterexample: 69 lines of size 18 (height 21pt each, 1449pt in
    all, below twice 729.89pt) take three pages: 34 lines fit on a page. *)
Lemma layout_page_count_exceeds_ceiling :
  length (layout (repeat (sized 18 []) 69)) = 3%nat
  /\ claimed_page_count (repeat (sized 18 []) 69) = 2.
Proof. split; vm_compute; reflexivity. Qed.

(** ** Claims on the serialized document *)

Lemma utf8_ascii_app : forall a b, Forall ascii_unit a -> utf8 (a ++ b) = a ++ utf8 b.
Proof.
  induction a as [|c a IH]; intros b Ha; [reflexivity|].
  inversion Ha as [|? ? [Hc0 Hc1] Ha']; subst.
  simpl app; unfold utf8; fold utf8.
  assert (E1 : is_high c = false)
    by (unfold is_high; destruct (55296 <=? c) eqn:E; [apply Z.leb_le in E; lia|reflexivity]).
  assert (E2 : is_low c = false)
    by (unfold is_low; destruct (56320 <=? c) eqn:E; [apply Z.leb_le in E; lia|reflexivity]).
  rewrite E1, E2, IH by exact Ha'.
  unfold enc_cp; rewrite (proj2 (Z.ltb_lt c 128) Hc1); reflexivity.
Qed.

Lemma utf8_ascii : forall a, Forall ascii_unit a -> utf8 a = a.
Proof.
  intros a Ha; rewrite <- (app_nil_r a) at 1; rewrite utf8_ascii_app by exact Ha.
  apply app_nil_r.
Qed.

Lemma digits_aux_ascii : forall fuel n acc, 0 <= n -> Forall ascii_unit acc ->
  Forall ascii_unit (digits_aux fuel n acc).
Proof.
  induction fuel as [|f IH]; intros n acc Hn Hacc; cbn [digits_aux]; [exact Hacc|].
  destruct (n <? 10) eqn:E.
  - apply Z.ltb_lt in E; constructor; [unfold ascii_unit; lia|exact Hacc].
  - apply IH; [apply Z.div_pos; lia|].
    constructor; [|exact Hacc].
    pose proof (Z.mod_pos_bound n 10 ltac:(lia)); unfold ascii_unit; lia.
Qed.

Lemma num_str_ascii : forall n, Forall ascii_unit (num_str n).
Proof.
  intros n; unfold num_str, dec.
  destruct (n <? 0) eqn:E.
  - apply Z.ltb_lt in E; constructor; [unfold ascii_unit; lia|].
    apply digits_aux_ascii; [lia|constructor].
  - apply Z.ltb_ge in E; apply digits_aux_ascii; [lia|constructor].
Qed.

Lemma lit_obj_ascii : Forall ascii_unit (lit " 0 obj").
Proof. repeat constructor; unfold ascii_unit; lia. Qed.

Lemma skipn_length_app : forall (A : Type) (l1 l2 : list A) n,
  skipn (length l1 + n) (l1 ++ l2) = skipn n l2.
Proof. intros A l1; induction l1 as [|x l1 IH]; intros l2 n; [reflexivity|exact (IH l2 n)]. Qed.

Lemma emit_objects_spec : forall bodies i cur cs offs X, 0 <= cur ->
  emit_objects i cur bodies = (cs, offs, X) ->
  length offs = length bodies
  /\ X = cur + Z.of_nat (length (concat cs))
  /\ forall j off, nth_error offs j = Some off ->
       cur <= off
       /\ forall tail, exists rest,
            skipn (Z.to_nat (off - cur)) (concat cs ++ tail)
            = num_str (i + Z.of_nat j + 1) ++ lit " 0 obj" ++ rest.
Proof.
  induction bodies as [|b r IH]; intros i cur cs offs X Hc He.
  - simpl in He; injection He as <- <- <-.
    split; [reflexivity|split; [simpl; lia|]].
    intros j off Hj; destruct j; discriminate.
  - simpl in He.
    destruct (emit_objects (i + 1)
                (cur + Z.of_nat (length (utf8 (obj_str (i + 1) b)))) r)
      as [[cs' offs'] X'] eqn:E.
    injection He as <- <- <-.
    set (bytes := utf8 (obj_str (i + 1) b)) in *.
    assert (Hc' : 0 <= cur + Z.of_nat (length bytes)) by lia.
    destruct (IH _ _ _ _ _ Hc' E) as (Hl & HX & Hj).
    split; [simpl; rewrite Hl; reflexivity|split].
    + rewrite HX; simpl concat; rewrite length_app; lia.
    + intros [|j] off Hn.
      * simpl in Hn; injection Hn as <-.
        split; [lia|intros tail].
        rewrite Z.sub_diag; simpl skipn.
        unfold bytes, obj_str.
        rewrite <- !app_assoc, utf8_ascii_app by apply num_str_ascii.
        rewrite <- !app_assoc, utf8_ascii_app by apply lit_obj_ascii.
        eexists. rewrite Z.add_0_r. reflexivity.
      * simpl in Hn. destruct (Hj j off Hn) as [Hle Hs].
        split; [pose proof (Zle_0_nat (length bytes)); lia|intros tail].
        destruct (Hs tail) as [rest Hr]. exists rest.
        replace (Z.to_nat (off - cur))
          with (length bytes + Z.to_nat (off - (cur + Z.of_nat (length bytes))))%nat
          by lia.
        simpl concat; rewrite <- app_assoc, skipn_length_app, Hr.
        f_equal; f_equal; lia.
Qed.

Lemma page_objects_length : forall ps nextId,
  length (fst (page_objects nextId ps)) = (2 * length ps)%nat.
Proof.
  induction ps as [|p r IH]; intros nextId; [reflexivity|].
  simpl. specialize (IH (nextId + 2)).
  destruct (page_objects (nextId + 2) r) as [objs ids]; simpl in *; lia.
Qed.

Lemma finalBodies_length : forall lines,
  length (finalBodies lines) = (3 + 2 * length (layout lines))%nat.
Proof.
  intros lines; unfold finalBodies.
  pose proof (page_objects_length (layout lines) 4) as H.
  destruct (page_objects 4 (layout lines)) as [objs ids]; simpl in *; lia.
Qed.

Lemma concat_layout : forall (A : Type) (a b c : list A) (l : list (list A)),
  concat ([a] ++ l ++ [b; c]) = a ++ (concat l ++ (b ++ c)).
Proof.
  intros A a b c l. rewrite !concat_app. cbn [concat]. rewrite !app_nil_r. reflexivity.
Qed.

Lemma root_ref_text : forall rest,
  lit " /Root " ++ num_str catalogId ++ lit " 0 R >>" ++ rest
  = lit " /Root 1 0 R >>" ++ rest.
Proof. intros rest; reflexivity. Qed.

Lemma xref_table_eq : forall n os,
  xref_table n (0 :: os)
  = lit "xref" ++ [10] ++ lit "0 " ++ num_str (Z.of_nat n + 1) ++ [10]
    ++ lit "0000000000 65535 f " ++ [10] ++ concat (map xref_entry os).
Proof. intros n os; reflexivity. Qed.

Lemma trailer_eq : forall n x,
  trailer n x
  = lit "trailer" ++ [10] ++ lit "<< /Size " ++ num_str (Z.of_nat n + 1)
    ++ lit " /Root 1 0 R >>" ++ [10] ++ lit "startxref" ++ [10]
    ++ num_str x ++ [10] ++ lit "%%EOF" ++ [10].
Proof. intros n x; unfold trailer; rewrite root_ref_text; reflexivity. Qed.

(** C2: the document has [n = 3 + 2 * pages] objects; the cross-reference
    section starts at the offset [startxref] reports and declares [n + 1]
    entries (the free entry for object 0, then one entry per recorded
    offset, in object order); the offset recorded for object [j + 1] is the
    byte position where [j+1 0 obj] is written; and the trailer gives
    [/Size n + 1] and [startxref] equal to that position. *)
Theorem pdf_xref_offsets : forall lines,
  let bodies := finalBodies lines in
  let n := length bodies in
  let offs := object_offsets bodies in
  let X := xref_start bodies in
  let out := buildPdfFromLines lines in
  n = (3 + 2 * length (layout lines))%nat
  /\ length offs = n
  /\ (forall j off, nth_error offs j = Some off ->
        exists rest, skipn (Z.to_nat off) out
                     = num_str (Z.of_nat j + 1) ++ lit " 0 obj" ++ rest)
  /\ skipn (Z.to_nat X) out
     = utf8 (lit "xref" ++ [10] ++ lit "0 " ++ num_str (Z.of_nat n + 1) ++ [10]
             ++ lit "0000000000 65535 f " ++ [10] ++ concat (map xref_entry offs))
       ++ utf8 (lit "trailer" ++ [10] ++ lit "<< /Size " ++ num_str (Z.of_nat n + 1)
                ++ lit " /Root 1 0 R >>" ++ [10] ++ lit "startxref" ++ [10]
                ++ num_str X ++ [10] ++ lit "%%EOF" ++ [10]).
Proof.
  intros lines bodies n offs X out.
  split; [apply finalBodies_length|].
  unfold offs, X, out, object_offsets, xref_start, buildPdfFromLines, compose.
  fold bodies. fold n.
  set (hdr := utf8 pdf_header).
  destruct (emit_objects 0 (Z.of_nat (length hdr)) bodies) as [[cs os] xs] eqn:E.
  simpl fst; simpl snd.
  destruct (emit_objects_spec bodies 0 (Z.of_nat (length hdr)) cs os xs
              (Zle_0_nat _) E) as (Hl & HX & Hj).
  split; [exact Hl|split].
  - intros j off Hn. destruct (Hj j off Hn) as [Hle Hs].
    destruct (Hs (utf8 (xref_table n (0 :: os)) ++ utf8 (trailer n xs))) as [rest Hr].
    exists rest.
    replace (Z.to_nat off) with (length hdr + Z.to_nat (off - Z.of_nat (length hdr)))%nat
      by lia.
    rewrite concat_layout, skipn_length_app. exact Hr.
  - rewrite HX, concat_layout.
    replace (Z.to_nat (Z.of_nat (length hdr) + Z.of_nat (length (concat cs))))
      with (length hdr + (length (concat cs) + 0))%nat by lia.
    rewrite skipn_length_app, skipn_length_app. cbn [skipn].
    rewrite xref_table_eq, trailer_eq. reflexivity.
Qed.

(** ** Claims on the filename *)

Lemma collapse_runs_merge : forall s,
  collapse_runs false s
  = merge_dashes (map (fun c => if is_alnum c then c else 45) s)
  /\ collapse_runs true s
     = drop_dash (merge_dashes (map (fun c => if is_alnum c then c else 45) s)).
Proof.
  induction s as [|c r [IHf IHt]]; [split; reflexivity|].
  cbn [collapse_runs map merge_dashes].
  set (d := merge_dashes (map (fun c0 => if is_alnum c0 then c0 else 45) r)) in *.
  destruct (is_alnum c) eqn:Ha.
  - assert (Hc : (c =? 45) = false)
      by (apply Z.eqb_neq; intros ->; discriminate Ha).
    rewrite Hc, IHf.
    destruct d as [|c' d']; simpl; rewrite ?Hc; split; reflexivity.
  - rewrite IHt. simpl Z.eqb. simpl andb.
    destruct d as [|c' d']; [split; reflexivity|].
    unfold drop_dash; destruct (c' =? 45) eqn:Hc'; simpl; rewrite ?Hc'.
    + apply Z.eqb_eq in Hc'; subst c'; split; reflexivity.
    + split; reflexivity.
Qed.

Lemma rev_drop_dash_rev : forall s,
  rev (drop_dash (rev s)) = if last s 0 =? 45 then removelast s else s.
Proof.
  induction s as [|x s _] using rev_ind; [reflexivity|].
  rewrite rev_app_distr, last_last, removelast_last; simpl.
  destruct (x =? 45); [apply rev_involutive|simpl; rewrite rev_involutive; reflexivity].
Qed.

(** C9: [safeFilename] lower-cases the title, turns each maximal run of
    characters outside [[a-z0-9]] into one hyphen, removes a leading and a
    trailing hyphen, keeps the first 80 characters and falls back to
    [exam-paper] on an empty result, whatever the lower-casing; and the
    title "Year 5 Maths — Mock #1!" gives "year-5-maths-mock-1". *)
Theorem safeFilename_spec :
  (forall lower input, safeFilename_with lower input = spec_filename lower input)
  /\ safeFilename (lit "Year 5 Maths " ++ [8212] ++ lit " Mock #1!")
     = lit "year-5-maths-mock-1".
Proof.
  split; [|vm_compute; reflexivity].
  intros lower input. unfold safeFilename_with, spec_filename, strip_dashes.
  rewrite (proj1 (collapse_runs_merge (lower input))), rev_drop_dash_rev.
  destruct (firstn 80 _); reflexivity.
Qed.

(** ** Claims on the request handler *)

Lemma normalize_question_throws : forall q,
  normalize_question q = None <-> q = JNull.
Proof.
  intros q; split; [|intros ->; reflexivity].
  destruct q; try discriminate; reflexivity.
Qed.

Lemma map_exn_normalize : forall qs,
  map_exn normalize_question qs = None <-> In JNull qs.
Proof.
  induction qs as [|q r IH]; [split; [discriminate|intros []]|].
  cbn [map_exn]. unfold bind_exn.
  destruct (normalize_question q) eqn:Hq.
  - assert (q <> JNull) by (intros ->; discriminate Hq).
    destruct (map_exn normalize_question r) eqn:Hr.
    + split; [discriminate|]. intros [->|Hin]; [contradiction|].
      apply IH in Hin; discriminate.
    + split; [intros _; right; apply IH; reflexivity|reflexivity].
  - apply normalize_question_throws in Hq; subst q.
    split; [intros _; left; reflexivity|reflexivity].
Qed.

Lemma POST_pdf_obj : forall fields t s qs,
  (POST_pdf (JObj fields) t s qs = Throws <-> In JNull qs)
  /\ (~ In JNull qs -> exists b f, POST_pdf (JObj fields) t s qs = Resp200 b f).
Proof.
  intros fields t s qs. unfold POST_pdf, prop, bind_exn.
  pose proof (map_exn_normalize qs) as H.
  destruct (map_exn normalize_question qs) as [l|].
  - split; [split; [discriminate|intros Hin; apply H in Hin; discriminate]|].
    intros _; eexists; eexists; reflexivity.
  - split; [split; [intros _; apply H; reflexivity|reflexivity]|].
    intros Hn; exfalso; apply Hn, H; reflexivity.
Qed.

Lemma POST_pdf_not400 : forall p t s qs, POST_pdf p t s qs <> Resp400.
Proof.
  intros p t s qs. unfold POST_pdf.
  destruct (bind_exn _ _); discriminate.
Qed.

(** C7, what the handler does: it answers 400 exactly when the body does
    not parse or fails the required-shape check; on a body that passes it,
    the PDF is built (200) unless an element of [questions] is [null], in
    which case reading [q.questionText] throws. *)
Theorem POST_outcomes :
  (forall body, POST body = Resp400
                <-> body = None \/ exists p, body = Some p /\ shape_ok p = false)
  /\ (forall p, shape_ok p = true ->
        (POST (Some p) = Throws <-> In JNull (questions_field p))
        /\ (~ In JNull (questions_field p) ->
            exists b f, POST (Some p) = Resp200 b f)).
Proof.
  split.
  - intros [p|]; [|split; [intros _; left; reflexivity|reflexivity]].
    cbn [POST].
    split.
    + intros H. right. exists p. split; [reflexivity|].
      destruct p as [| | | |items|fields]; try reflexivity.
      unfold shape_ok. cbn [falsy prop] in H.
      destruct (lookup_field (lit "title") fields) as [[]|]; try reflexivity;
      destruct (lookup_field (lit "subject") fields) as [[]|]; try reflexivity;
      destruct (lookup_field (lit "questions") fields) as [[| | | |[|q qs]|]|];
      try reflexivity.
      exfalso; exact (POST_pdf_not400 _ _ _ _ H).
    + intros [H|[p' [Hp Hs]]]; [discriminate|].
      injection Hp as <-.
      destruct p as [|[]|[]| |items|fields]; try reflexivity.
      * destruct s; reflexivity.
      * unfold shape_ok in Hs. cbn [falsy prop].
        destruct (lookup_field (lit "title") fields) as [[]|]; try reflexivity;
        destruct (lookup_field (lit "subject") fields) as [[]|]; try reflexivity;
        destruct (lookup_field (lit "questions") fields) as [[| | | |[|q qs]|]|];
        try reflexivity; discriminate Hs.
  - intros p Hs.
    destruct p as [| | | | |fields]; try discriminate Hs.
    unfold shape_ok in Hs. unfold questions_field. cbn [POST falsy prop].
    destruct (lookup_field (lit "title") fields) as [[]|]; try discriminate Hs;
    destruct (lookup_field (lit "subject") fields) as [[]|]; try discriminate Hs;
    destruct (lookup_field (lit "questions") fields) as [[| | | |[|q qs]|]|];
    try discriminate Hs.
    apply POST_pdf_obj.
Qed.

(** C7, a body that passes the required-shape check and is not answered
    with 400 or 200: [{"title":"a","subject":"b","questions":[null]}]
    makes the handler throw. *)
Lemma POST_null_question_throws :
  let body := JObj [(lit "title", JStr (lit "a")); (lit "subject", JStr (lit "b"));
                    (lit "questions", JArr [JNull])] in
  shape_ok body = true /\ POST (Some body) = Throws.
Proof. split; vm_compute; reflexivity. Qed.

(** ** Further properties: wrapText *)

(** X1: every line [wrapText] returns is its own words joined by single
    spaces: no line break, no leading, trailing or repeated whitespace. *)
Theorem wrapText_lines_normalized : forall t m l,
  In l (wrapText t m) -> l = join [32] (words l).
Proof.
  intros t m l Hl.
  pose proof (proj1 (Forall_forall _ _) (wrapText_shape t m) l Hl) as [->|(h & -> & _ & Hg & _)].
  - reflexivity.
  - rewrite words_join_good by exact Hg; reflexivity.
Qed.

Lemma wrapText_lines_normalized_witness :
  In (lit "the cat") (wrapText (lit "  the   cat sat ") 7)
  /\ lit "the cat" = join [32] (words (lit "the cat")).
Proof.
  assert (H : In (lit "the cat") (wrapText (lit "  the   cat sat ") 7))
    by (vm_compute; left; reflexivity).
  split; [exact H|].
  exact (wrapText_lines_normalized (lit "  the   cat sat ") 7 (lit "the cat") H).
Defined.

Lemma split_on_length : forall sep s,
  length (split_on sep s) = S (count_occ Z.eq_dec s sep).
Proof.
  intros sep; induction s as [|c r IH]; [reflexivity|].
  rewrite split_on_cons; cbn [count_occ].
  destruct (c =? sep) eqn:E.
  - apply Z.eqb_eq in E; subst c.
    destruct (Z.eq_dec sep sep) as [_|n]; [|congruence]; simpl; rewrite IH; reflexivity.
  - apply Z.eqb_neq in E.
    destruct (Z.eq_dec c sep) as [e|_]; [congruence|].
    destruct (split_on sep r) as [|w ws] eqn:Hs; [exfalso; exact (split_on_nonnil _ _ Hs)|].
    exact IH.
Qed.

Lemma strip_cr_count_lf : forall t,
  count_occ Z.eq_dec (strip_cr t) 10 = count_occ Z.eq_dec t 10.
Proof.
  induction t as [|c r IH]; [reflexivity|].
  unfold strip_cr; cbn [filter count_occ]; fold (strip_cr r).
  destruct (c =? 13) eqn:E; simpl.
  - apply Z.eqb_eq in E; subst c. rewrite IH. reflexivity.
  - cbn [count_occ]; rewrite IH; reflexivity.
Qed.

Lemma flat_map_length_ge : forall (A B : Type) (f : A -> list B) l,
  (forall x, f x <> []) -> (length l <= length (flat_map f l))%nat.
Proof.
  intros A B f l Hf; induction l as [|x l IH]; [simpl; lia|].
  simpl; rewrite length_app.
  destruct (f x) eqn:E; [exfalso; exact (Hf x E)|simpl; lia].
Qed.

(** X2: [wrapText] returns at least one line per paragraph: at least one
    more line than the text has line feeds (blank lines are kept). *)
Theorem wrapText_lines_per_paragraph : forall t m,
  (count_occ Z.eq_dec t 10%Z + 1 <= length (wrapText t m))%nat.
Proof.
  intros t m. unfold wrapText.
  pose proof (flat_map_length_ge _ _ (wrap_para m) (split_on 10 (strip_cr t))
                (wrap_para_nonnil m)) as H.
  rewrite split_on_length, strip_cr_count_lf in H. lia.
Qed.

(** ** Further properties: toTitleCase *)

Lemma is_word_char_upper : forall c, is_word_char (ascii_upper c) = is_word_char c.
Proof.
  intros c; unfold ascii_upper, is_word_char.
  destruct ((97 <=? c) && (c <=? 122)) eqn:E; [|rewrite E; reflexivity].
  apply andb_true_iff in E as [E1 E2]; apply Z.leb_le in E1, E2.
  repeat match goal with |- context [?a <=? ?b] =>
    first [ rewrite (proj2 (Z.leb_le a b)) by lia
          | rewrite (proj2 (Z.leb_gt a b)) by lia ] end.
  reflexivity.
Qed.

Lemma ascii_upper_idem : forall c, ascii_upper (ascii_upper c) = ascii_upper c.
Proof.
  intros c; unfold ascii_upper.
  destruct ((97 <=? c) && (c <=? 122)) eqn:E.
  - apply andb_true_iff in E as [E1 E2]; apply Z.leb_le in E1, E2.
    rewrite (proj2 (Z.leb_gt 97 (c - 32))) by lia; reflexivity.
  - rewrite E; reflexivity.
Qed.

Lemma title_case_aux_length : forall s b, length (title_case_aux b s) = length s.
Proof. induction s as [|c r IH]; intros b; simpl; [reflexivity|rewrite IH; reflexivity]. Qed.

Lemma title_case_aux_nth : forall s b i c, nth_error s i = Some c ->
  nth_error (title_case_aux b s) i
  = Some (if is_word_char c
               && negb (match i with
                        | O => b
                        | S j => match nth_error s j with
                                 | Some d => is_word_char d | None => false end
                        end)
          then ascii_upper c else c).
Proof.
  induction s as [|x r IH]; intros b i c H; [destruct i; discriminate|].
  destruct i as [|i]; simpl in H |- *.
  - injection H as ->; reflexivity.
  - rewrite (IH _ _ _ H). destruct i; reflexivity.
Qed.

Lemma title_case_aux_idem : forall s b,
  title_case_aux b (title_case_aux b s) = title_case_aux b s.
Proof.
  induction s as [|c r IH]; intros b; [reflexivity|].
  cbn [title_case_aux].
  assert (Hw : is_word_char (if is_word_char c && negb b then ascii_upper c else c)
               = is_word_char c)
    by (destruct (is_word_char c && negb b); [apply is_word_char_upper|reflexivity]).
  rewrite Hw, IH. f_equal.
  destruct (is_word_char c && negb b) eqn:E; [apply ascii_upper_idem|reflexivity].
Qed.

(** X3: [toTitleCase] keeps the length; the code unit at position [i]
    becomes upper case exactly when it is a word character ([A-Za-z0-9_])
    not preceded by one (only [a-z] actually change); every other code unit
    is kept; and applying it twice is the same as once. *)
Theorem toTitleCase_spec : forall s,
  length (toTitleCase s) = length s
  /\ (forall i c, nth_error s i = Some c ->
        nth_error (toTitleCase s) i
        = Some (if is_word_char c && negb (prev_word s i) then ascii_upper c else c))
  /\ toTitleCase (toTitleCase s) = toTitleCase s.
Proof.
  intros s; split; [apply title_case_aux_length|split].
  - intros i c H; unfold toTitleCase; rewrite (title_case_aux_nth s false i c H).
    destruct i; reflexivity.
  - apply title_case_aux_idem.
Qed.

(** ** Further properties: safeFilename *)

Lemma has_double_dash_cons : forall c l, has_double_dash (c :: l) ->
  (c = 45 /\ hd 0 l = 45) \/ has_double_dash l.
Proof.
  intros c l (p & q & H).
  destruct p as [|x p]; simpl in H; injection H as -> ->.
  - left; split; reflexivity.
  - right; exists p, q; reflexivity.
Qed.

Lemma has_double_dash_prefix : forall l r, has_double_dash l -> has_double_dash (l ++ r).
Proof.
  intros l r (p & q & ->); exists p, (q ++ r); rewrite <- app_assoc; reflexivity.
Qed.

Lemma collapse_runs_shape : forall s b,
  Forall (fun c => is_alnum c || (c =? 45) = true) (collapse_runs b s)
  /\ ~ has_double_dash (collapse_runs b s)
  /\ (b = true -> hd 0 (collapse_runs b s) <> 45).
Proof.
  induction s as [|c r IH]; intros b.
  - split; [constructor|split; [intros (p & q & H); destruct p; discriminate|]].
    intros _; simpl; discriminate.
  - cbn [collapse_runs].
    destruct (is_alnum c) eqn:Ha.
    + destruct (IH false) as (HF & HD & _).
      assert (Hc : c <> 45) by (intros ->; discriminate Ha).
      split; [constructor; [rewrite Ha; reflexivity|exact HF]|split].
      * intros Hd; apply has_double_dash_cons in Hd as [[E _]|Hd]; [exact (Hc E)|exact (HD Hd)].
      * intros _; exact Hc.
    + destruct b.
      * exact (IH true).
      * destruct (IH true) as (HF & HD & HH).
        split; [constructor; [rewrite orb_true_r; reflexivity|exact HF]|split].
        -- intros Hd; apply has_double_dash_cons in Hd as [[_ E]|Hd];
             [exact (HH eq_refl E)|exact (HD Hd)].
        -- intros E; discriminate E.
Qed.

Lemma firstn_removelast_prefix : forall (l : jstr), exists r, l = removelast l ++ r.
Proof.
  intros l; destruct l as [|x l] using rev_ind; [exists []; reflexivity|].
  rewrite removelast_last; exists [x]; reflexivity.
Qed.

Lemma stem_shape : forall s1 s2,
  (exists r, s1 = s2 ++ r) -> hd 0 s1 <> 45 ->
  Forall (fun c => is_alnum c || (c =? 45) = true) s1 -> ~ has_double_dash s1 ->
  let f := match firstn 80 s2 with [] => lit "exam-paper" | _ :: _ => firstn 80 s2 end in
  f <> [] /\ (length f <= 80)%nat
  /\ Forall (fun c => is_alnum c || (c =? 45) = true) f
  /\ hd 0 f <> 45
  /\ ~ has_double_dash f.
Proof.
  intros s1 s2 [r Hr] HH1 HF1 HD1 f. unfold f.
  assert (Hpre : exists r', s1 = firstn 80 s2 ++ r')
    by (exists (skipn 80 s2 ++ r); rewrite app_assoc, firstn_skipn; exact Hr).
  destruct Hpre as [r' Hr'].
  destruct (firstn 80 s2) as [|c l] eqn:Ef.
  - split; [discriminate|split; [simpl; lia|split; [|split]]].
    + repeat constructor.
    + simpl; discriminate.
    + intros (p & q & E); unfold lit in E; simpl in E.
      do 10 (destruct p as [|? p]; simpl in E; [discriminate|injection E as _ E]).
      destruct p; discriminate.
  - split; [discriminate|split; [rewrite <- Ef; apply firstn_le_length|split; [|split]]].
    + rewrite Hr' in HF1; apply Forall_app in HF1 as [HF1 _]; exact HF1.
    + rewrite Hr' in HH1; exact HH1.
    + intros Hd; apply HD1; rewrite Hr'; apply has_double_dash_prefix, Hd.
Qed.

Lemma stem_charset : forall lower input,
  let f := safeFilename_with lower input in
  f <> [] /\ (length f <= 80)%nat
  /\ Forall (fun c => is_alnum c || (c =? 45) = true) f
  /\ hd 0 f <> 45
  /\ ~ has_double_dash f.
Proof.
  intros lower input f. unfold f, safeFilename_with, strip_dashes.
  set (s0 := collapse_runs false (lower input)).
  destruct (collapse_runs_shape (lower input) false) as (HF0 & HD0 & _).
  fold s0 in HF0, HD0.
  set (s1 := drop_dash s0).
  assert (HF1 : Forall (fun c => is_alnum c || (c =? 45) = true) s1)
    by (unfold s1, drop_dash; destruct s0 as [|x r]; [constructor|];
        destruct (x =? 45); [inversion HF0; assumption|exact HF0]).
  assert (HD1 : ~ has_double_dash s1)
    by (unfold s1, drop_dash; destruct s0 as [|x r]; [exact HD0|];
        destruct (x =? 45); [intros (p & q & E); apply HD0; exists (x :: p), q;
                             rewrite E; reflexivity|exact HD0]).
  assert (HH1 : hd 0 s1 <> 45).
  { unfold s1, drop_dash. destruct s0 as [|x r] eqn:E0; [simpl; discriminate|].
    destruct (x =? 45) eqn:Ex.
    - apply Z.eqb_eq in Ex; subst x. intros Hr. apply HD0.
      destruct r as [|y r']; [discriminate|]. simpl in Hr; subst y.
      exists [], r'; reflexivity.
    - apply Z.eqb_neq in Ex; exact Ex. }
  apply stem_shape with (s1 := s1); [|exact HH1|exact HF1|exact HD1].
  destruct (last s1 0 =? 45).
  - apply firstn_removelast_prefix.
  - exists []; rewrite app_nil_r; reflexivity.
Qed.

(** X4: whatever the title (and whatever the lower-casing), [safeFilename]
    returns a non-empty stem of at most 80 characters from [a-z0-9-], that
    does not start with a hyphen and has no two adjacent hyphens (so the
    [filename="..."] header value cannot be broken by the title). *)
Theorem safeFilename_charset : forall lower input,
  let f := safeFilename_with lower input in
  f <> [] /\ (length f <= 80)%nat
  /\ Forall (fun c => is_alnum c || (c =? 45) = true) f
  /\ hd 0 f <> 45
  /\ ~ has_double_dash f.
Proof. exact stem_charset. Qed.

(** ** Further properties: pagination *)

Lemma total_height_app : forall a b : list Line,
  total_height (a ++ b) = total_height a + total_height b.
Proof.
  induction a as [|x a IH]; intros b; [reflexivity|].
  unfold total_height in *; cbn [app fold_right]. rewrite IH. lia.
Qed.

Lemma page_breaks_ok_snoc : forall l a b,
  page_breaks_ok (l ++ [a]) ->
  (exists ln rest, b = ln :: rest /\ usable_height < total_height a + line_height ln) ->
  page_breaks_ok (l ++ [a; b]).
Proof.
  induction l as [|x l IH]; intros a b H Hab; [split; [exact Hab|exact I]|].
  destruct l as [|x' l'].
  - simpl in H |- *. destruct H as [H _]. split; [exact H|split; [exact Hab|exact I]].
  - simpl in H |- *. destruct H as [H1 H2]. split; [exact H1|exact (IH a b H2 Hab)].
Qed.

Lemma page_breaks_ok_extend : forall l a x,
  page_breaks_ok (l ++ [a]) -> page_breaks_ok (l ++ [a ++ x]).
Proof.
  induction l as [|g l IH]; intros a x H; [exact I|].
  destruct l as [|g' l'].
  - simpl in H |- *. destruct H as [(ln & rest & -> & Hc) _].
    split; [exists ln, (rest ++ x); split; [reflexivity|exact Hc]|exact I].
  - simpl in H |- *. destruct H as [H1 H2]. split; [exact H1|exact (IH a x H2)].
Qed.

Lemma lines_fit_snoc : forall g p ln,
  lines_fit p g -> p + total_height g + line_height ln <= usable_height ->
  lines_fit p (g ++ [ln]).
Proof.
  induction g as [|x g IH]; intros p ln Hg Hh.
  - cbn. unfold total_height in Hh; cbn in Hh. split; [lia|exact I].
  - destruct Hg as [Hx Hg]. cbn [app lines_fit]. split; [exact Hx|].
    apply IH; [exact Hg|].
    unfold total_height in Hh |- *; cbn [fold_right] in Hh; fold (line_height x) in Hh; lia.
Qed.

Lemma page_fits_ok_extend : forall l a ln,
  page_fits_ok (l ++ [a]) -> total_height (a ++ [ln]) <= usable_height ->
  page_fits_ok (l ++ [a ++ [ln]]).
Proof.
  intros l a ln H Hh.
  assert (Hlast : forall a, (match a with
                             | [] => True
                             | x :: rest => lines_fit (line_height x) rest
                             end) -> total_height (a ++ [ln]) <= usable_height ->
                  match a ++ [ln] with
                  | [] => True
                  | x :: rest => lines_fit (line_height x) rest
                  end).
  { intros [|x r] Ha Hh'; [exact I|].
    cbn [app]. apply lines_fit_snoc; [exact Ha|].
    rewrite total_height_app in Hh'. unfold total_height in Hh' |- *.
    cbn [fold_right] in Hh' |- *; fold (line_height x) in Hh'; fold (line_height ln) in Hh'; lia. }
  destruct l as [|g l'].
  - cbn in H |- *. destruct H as [H _]. split; [|constructor].
    apply lines_fit_snoc; [exact H|rewrite total_height_app in Hh;
      unfold total_height at 2 in Hh; cbn [fold_right] in Hh; fold (line_height ln) in Hh; lia].
  - cbn [app page_fits_ok] in H |- *. destruct H as [Hg H]. split; [exact Hg|].
    apply Forall_app in H as [H1 H2]. apply Forall_app; split; [exact H1|].
    inversion H2 as [|? ? Ha _]; subst. constructor; [apply Hlast; assumption|constructor].
Qed.

Lemma page_fits_ok_snoc : forall l a ln,
  page_fits_ok (l ++ [a]) -> page_fits_ok (l ++ [a; [ln]]).
Proof.
  intros l a ln H. destruct l as [|g l'].
  - cbn in H |- *. destruct H as [H _]. split; [exact H|constructor; [exact I|constructor]].
  - cbn [app page_fits_ok] in H |- *. destruct H as [Hg H]. split; [exact Hg|].
    replace (l' ++ [a; [ln]]) with ((l' ++ [a]) ++ [[ln]]) by (rewrite <- app_assoc; reflexivity).
    apply Forall_app; split; [exact H|constructor; [exact I|constructor]].
Qed.

Definition group_inv (st : LayoutState) (done : list (list Line)) (cur : list Line) : Prop :=
  pages st = map page_ops done
  /\ current st = page_start ++ flat_map line_ops cur
  /\ y st = PAGE_H - M_TOP - total_height cur.

Lemma layout_step_inv : forall st done cur ln,
  group_inv st done cur ->
  if y st - line_height ln <? M_BOTTOM
  then group_inv (layout_step st ln) (done ++ [cur]) [ln]
       /\ usable_height < total_height cur + line_height ln
  else group_inv (layout_step st ln) done (cur ++ [ln])
       /\ total_height (cur ++ [ln]) <= usable_height.
Proof.
  intros st done cur ln (Hp & Hc & Hy).
  unfold layout_step. fold (line_height ln).
  destruct (y st - line_height ln <? M_BOTTOM) eqn:E.
  - apply Z.ltb_lt in E. split.
    + unfold group_inv; cbn [pages current y].
      split; [rewrite Hp, Hc, map_app; unfold page_ops; cbn [map];
              rewrite <- !app_assoc; reflexivity|].
      split; [cbn [flat_map]; rewrite app_nil_r; reflexivity|].
      unfold total_height; cbn [fold_right]; fold (line_height ln); lia.
    + unfold usable_height; lia.
  - apply Z.ltb_ge in E. split.
    + unfold group_inv; cbn [pages current y].
      split; [exact Hp|].
      split; [rewrite Hc, flat_map_app; cbn [flat_map]; rewrite app_nil_r, <- app_assoc; reflexivity|].
      rewrite total_height_app; unfold total_height at 2; cbn [fold_right];
        fold (line_height ln); lia.
    + rewrite total_height_app; unfold total_height at 2; cbn [fold_right];
        fold (line_height ln). unfold usable_height; lia.
Qed.

Lemma layout_fold_groups : forall lines st done cur,
  group_inv st done cur -> page_breaks_ok (done ++ [cur]) ->
  page_fits_ok (done ++ [cur]) ->
  exists done' cur',
    group_inv (fold_left layout_step lines st) done' cur'
    /\ concat (done' ++ [cur']) = concat (done ++ [cur]) ++ lines
    /\ page_breaks_ok (done' ++ [cur'])
    /\ page_fits_ok (done' ++ [cur'])
    /\ (Forall (fun ln => line_height ln <= usable_height) lines ->
        Forall (fun g => total_height g <= usable_height) (done ++ [cur]) ->
        Forall (fun g => total_height g <= usable_height) (done' ++ [cur'])).
Proof.
  induction lines as [|ln lines IH]; intros st done cur Hi Hb Hfit.
  - exists done, cur. split; [exact Hi|split; [rewrite app_nil_r; reflexivity|]].
    split; [exact Hb|split; [exact Hfit|intros _ H; exact H]].
  - cbn [fold_left].
    pose proof (layout_step_inv st done cur ln Hi) as Hs.
    destruct (y st - line_height ln <? M_BOTTOM).
    + destruct Hs as [Hi' Hc].
      assert (Hb' : page_breaks_ok ((done ++ [cur]) ++ [[ln]]))
        by (rewrite <- app_assoc; apply page_breaks_ok_snoc;
            [exact Hb|exists ln, []; split; [reflexivity|exact Hc]]).
      assert (Hfit' : page_fits_ok ((done ++ [cur]) ++ [[ln]]))
        by (rewrite <- app_assoc; apply page_fits_ok_snoc, Hfit).
      destruct (IH _ _ _ Hi' Hb' Hfit') as (d' & c' & Hi2 & Hcat & Hb2 & Hfit2 & Hh).
      exists d', c'. split; [exact Hi2|split; [|split; [exact Hb2|split; [exact Hfit2|]]]].
      * rewrite Hcat, !concat_app. simpl. rewrite <- !app_assoc. reflexivity.
      * intros Hf Hg. inversion Hf as [|? ? Hln Hf']; subst.
        apply Hh; [exact Hf'|].
        apply Forall_app; split; [exact Hg|].
        constructor; [unfold total_height; cbn [fold_right]; fold (line_height ln); lia|constructor].
    + destruct Hs as [Hi' Hle].
      assert (Hb' : page_breaks_ok (done ++ [cur ++ [ln]]))
        by (apply page_breaks_ok_extend, Hb).
      assert (Hfit' : page_fits_ok (done ++ [cur ++ [ln]]))
        by (apply page_fits_ok_extend; [exact Hfit|exact Hle]).
      destruct (IH _ _ _ Hi' Hb' Hfit') as (d' & c' & Hi2 & Hcat & Hb2 & Hfit2 & Hh).
      exists d', c'. split; [exact Hi2|split; [|split; [exact Hb2|split; [exact Hfit2|]]]].
      * rewrite Hcat, !concat_app. simpl. rewrite !app_nil_r, <- !app_assoc. reflexivity.
      * intros Hf Hg. inversion Hf as [|? ? Hln Hf']; subst.
        apply Hh; [exact Hf'|].
        apply Forall_app in Hg as [Hg1 _].
        apply Forall_app; split; [exact Hg1|constructor; [exact Hle|constructor]].
Qed.

Lemma layout_groups : forall lines,
  exists gs, concat gs = lines /\ layout lines = map page_ops gs /\ gs <> []
             /\ page_breaks_ok gs /\ page_fits_ok gs
             /\ (Forall (fun ln => line_height ln <= usable_height) lines ->
                 Forall (fun g => total_height g <= usable_height) gs).
Proof.
  intros lines.
  assert (Hi : group_inv layout_init [] []) by (split; [reflexivity|split; reflexivity]).
  assert (Hfit : page_fits_ok ([] ++ [[]])) by (split; [exact I|constructor]).
  destruct (layout_fold_groups lines layout_init [] [] Hi I Hfit)
    as (d & c & (Hp & Hc & _) & Hcat & Hb & Hfit2 & Hh).
  exists (d ++ [c]). split; [simpl in Hcat; exact Hcat|split; [|split; [|split; [|split]]]].
  - unfold layout. rewrite Hp, Hc, map_app. cbn [map]. unfold page_ops at 3.
    rewrite <- app_assoc; reflexivity.
  - intros E; apply app_eq_nil in E as [_ E]; discriminate.
  - exact Hb.
  - exact Hfit2.
  - intros Hf; apply Hh; [exact Hf|constructor; [unfold total_height, usable_height; simpl; lia|constructor]].
Qed.

(** X5: the pages of [buildPdfFromLines] split the lines, in order, into
    consecutive groups, at least one: each page is [BT], the default font
    and the move to the top-left margin, then for each of its lines the
    font size, the text and the move down by size + 3, then [ET]; a new
    page is started exactly when the next line would go below the bottom
    margin: each page after the first starts with a line that did not fit
    on the page before ([page_breaks_ok]), and every other line fits below
    the lines above it on its page ([page_fits_ok]). *)
Theorem layout_pages_split : forall lines,
  exists gs, concat gs = lines /\ layout lines = map page_ops gs /\ gs <> []
             /\ page_breaks_ok gs /\ page_fits_ok gs.
Proof.
  intros lines; destruct (layout_groups lines) as (gs & H1 & H2 & H3 & H4 & H5 & _).
  exists gs; repeat split; assumption.
Qed.

Lemma groups_nonempty : forall gs,
  page_breaks_ok gs ->
  Forall (fun ln => 0 <= line_height ln <= usable_height) (concat gs) ->
  concat gs <> [] -> Forall (fun g => g <> []) gs.
Proof.
  induction gs as [|g r IH]; intros Hb Hf Hne; [exfalso; apply Hne; reflexivity|].
  destruct r as [|g' r'].
  - constructor; [|constructor]. intros ->; apply Hne; reflexivity.
  - destruct Hb as [(ln & rest & Hg' & Hc) Hb'].
    assert (Hln : 0 <= line_height ln <= usable_height).
    { apply (proj1 (Forall_forall _ _) Hf). apply in_concat. exists g'.
      split; [right; left; reflexivity|rewrite Hg'; left; reflexivity]. }
    constructor.
    + intros ->. unfold total_height in Hc; simpl in Hc; lia.
    + apply IH; [exact Hb'| |].
      * simpl in Hf; apply Forall_app in Hf as [_ Hf]; exact Hf.
      * rewrite Hg'; simpl; discriminate.
Qed.

(** X6: when every line is at most a page high (size + 3 between 0 and the
    usable height 729.89pt), no page of [buildPdfFromLines] goes below the
    bottom margin (the heights of the lines of a page add up to at most the
    usable height) and, unless there are no lines at all, no page is
    blank. *)
Theorem layout_pages_fit : forall lines,
  Forall (fun ln => 0 <= line_height ln <= usable_height) lines ->
  exists gs, concat gs = lines /\ layout lines = map page_ops gs
             /\ Forall (fun g => total_height g <= usable_height) gs
             /\ (lines <> [] -> Forall (fun g => g <> []) gs).
Proof.
  intros lines Hf.
  destruct (layout_groups lines) as (gs & Hc & Hl & _ & Hb & _ & Hh).
  exists gs. split; [exact Hc|split; [exact Hl|split]].
  - apply Hh. apply Forall_forall; intros ln Hin.
    exact (proj2 (proj1 (Forall_forall _ _) Hf ln Hin)).
  - intros Hne. rewrite <- Hc in Hf, Hne. exact (groups_nonempty gs Hb Hf Hne).
Qed.

Lemma layout_pages_fit_witness :
  Forall (fun ln => 0 <= line_height ln <= usable_height) (repeat (sized 11 (lit "x")) 60)
  /\ exists gs, concat gs = repeat (sized 11 (lit "x")) 60
     /\ layout (repeat (sized 11 (lit "x")) 60) = map page_ops gs
     /\ Forall (fun g => total_height g <= usable_height) gs
     /\ (repeat (sized 11 (lit "x")) 60 <> [] -> Forall (fun g => g <> []) gs).
Proof.
  assert (H : Forall (fun ln => 0 <= line_height ln <= usable_height)
                (repeat (sized 11 (lit "x")) 60))
    by (apply Forall_forall; intros ln Hin; apply repeat_spec in Hin; subst ln;
        vm_compute; split; discriminate).
  split; [exact H|exact (layout_pages_fit _ H)].
Defined.

(** ** Further properties: buildPaperLines and the bold flag *)

Definition size_10_18 (ln : Line) : Prop := 10 <= line_size ln <= 18.

Lemma Forall_app_intro : forall (A : Type) (P : A -> Prop) a b,
  Forall P a -> Forall P b -> Forall P (a ++ b).
Proof. intros; apply Forall_app; split; assumption. Qed.

Lemma Forall_forEach_idx : forall (A B : Type) (P : B -> Prop) (f : Z -> A -> list B),
  (forall i x, Forall P (f i x)) -> forall l i, Forall P (forEach_idx f i l).
Proof.
  intros A B P f Hf l; induction l as [|x l IH]; intros i; [constructor|].
  apply Forall_app_intro; [apply Hf|apply IH].
Qed.

Lemma sized_10_18 : forall k l, 10 <= k <= 18 -> Forall size_10_18 (map (sized k) l).
Proof.
  intros k l Hk; apply Forall_forall; intros ln Hin.
  apply in_map_iff in Hin as (t & <- & _); exact Hk.
Qed.

Lemma blank_10_18 : size_10_18 blank.
Proof. unfold size_10_18, line_size, defaultFontSize; simpl; lia. Qed.

Lemma fixed_10_18 : forall t k b, 10 <= k <= 18 -> size_10_18 (mkLine t (Some k) b).
Proof. intros t k b Hk; exact Hk. Qed.

Create HintDb paper_lines.
#[local] Hint Resolve Forall_app_intro sized_10_18 blank_10_18 : paper_lines.
#[local] Hint Extern 1 (size_10_18 (mkLine _ (Some _) _)) => apply fixed_10_18 : paper_lines.
#[local] Hint Constructors Forall : paper_lines.
#[local] Hint Extern 1 (_ <= _ <= _) => lia : paper_lines.

Lemma question_lines_10_18 : forall i q, Forall size_10_18 (question_lines i q).
Proof.
  intros i q; unfold question_lines.
  apply Forall_app_intro; [auto with paper_lines|].
  apply Forall_app_intro; [|auto with paper_lines].
  apply Forall_forEach_idx; intros; auto with paper_lines.
Qed.

Lemma answer_lines_10_18 : forall i q, Forall size_10_18 (answer_lines i q).
Proof.
  intros i q; unfold answer_lines.
  constructor; [apply fixed_10_18; lia|].
  apply Forall_app_intro; [|auto with paper_lines].
  destruct (nonempty _); auto with paper_lines.
Qed.

(** X7: every line of [buildPaperLines] has a font size between 10 and 18
    (the default 11 for blank lines), so its height size + 3 is positive
    and far below the usable page height 729.89pt. *)
Theorem buildPaperLines_sizes : forall paper,
  Forall (fun ln => 10 <= line_size ln <= 18
                    /\ 0 < line_height ln <= usable_height) (buildPaperLines paper).
Proof.
  intros paper.
  assert (H : Forall size_10_18 (buildPaperLines paper)).
  { unfold buildPaperLines, paper_body.
    repeat apply Forall_app_intro.
    all: try (repeat constructor; unfold size_10_18, line_size, defaultFontSize; simpl; lia).
    - apply sized_10_18; lia.
    - destruct (passage paper) as [ps|]; [destruct (nonempty ps)|]; [|constructor|constructor].
      constructor; [apply fixed_10_18; lia|].
      apply Forall_app_intro; [apply sized_10_18; lia|constructor; [apply blank_10_18|constructor]].
    - apply Forall_forEach_idx, question_lines_10_18.
    - apply Forall_forEach_idx, answer_lines_10_18. }
  apply Forall_forall; intros ln Hin.
  pose proof (proj1 (Forall_forall _ _) H ln Hin) as Hs.
  unfold size_10_18 in Hs. unfold line_height, usable_height, lineGap.
  split; [exact Hs|unfold PAGE_H, M_TOP, M_BOTTOM; lia].
Qed.

Lemma layout_unbold : forall lines, layout (map unbold lines) = layout lines.
Proof.
  intros lines; unfold layout.
  assert (H : forall l st, fold_left layout_step (map unbold l) st = fold_left layout_step l st)
    by (induction l as [|ln l IH]; intros st; [reflexivity|exact (IH _)]).
  rewrite H; reflexivity.
Qed.

(** X8: [buildPdfFromLines] ignores the [bold] flag of the lines: removing
    it from every line gives the same bytes (bold lines are drawn like the
    others, only their size matters). *)
Theorem buildPdf_ignores_bold : forall lines,
  buildPdfFromLines (map unbold lines) = buildPdfFromLines lines.
Proof.
  intros lines; unfold buildPdfFromLines, finalBodies; rewrite layout_unbold; reflexivity.
Qed.

(** ** Further properties: the serialized objects *)

Lemma is_low_ascii : forall c, ascii_unit c -> is_low c = false.
Proof.
  intros c [H0 H1]; unfold is_low.
  rewrite (proj2 (Z.leb_gt 56320 c)) by lia; reflexivity.
Qed.

Lemma utf8_app_ascii : forall a b, Forall ascii_unit b -> utf8 (a ++ b) = utf8 a ++ b.
Proof.
  intros a b Hb.
  assert (Hlow : forall v r', b = v :: r' -> is_low v = false)
    by (intros v r' ->; inversion Hb; apply is_low_ascii; assumption).
  assert (Hn : forall n a, (length a <= n)%nat -> utf8 (a ++ b) = utf8 a ++ b).
  { induction n as [|n IH]; intros a0 Hl.
    - destruct a0; [simpl; apply utf8_ascii, Hb|simpl in Hl; lia].
    - destruct a0 as [|u r]; [simpl; apply utf8_ascii, Hb|].
      simpl in Hl. cbn [app utf8].
      destruct (is_high u).
      + destruct r as [|v r'].
        * cbn [app]. destruct b as [|v r'] eqn:Eb; [rewrite app_nil_r; reflexivity|].
          rewrite (Hlow v r' eq_refl), utf8_ascii by exact Hb; reflexivity.
        * cbn [app]. destruct (is_low v).
          -- rewrite IH by (simpl in Hl; lia). apply app_assoc.
          -- change (v :: r' ++ b) with ((v :: r') ++ b).
             rewrite IH by (simpl in Hl |- *; lia).
             apply app_assoc.
      + destruct (is_low u); rewrite IH by lia; apply app_assoc. }
  apply (Hn (length a)); lia.
Qed.

Lemma Forall_ascii_app : forall a b,
  Forall ascii_unit a -> Forall ascii_unit b -> Forall ascii_unit (a ++ b).
Proof. intros; apply Forall_app; split; assumption. Qed.

Ltac ascii_lits :=
  repeat first [ apply Forall_ascii_app | apply num_str_ascii
               | solve [repeat constructor; unfold ascii_unit; lia] ].

(** X9: a page's content object is written as "n 0 obj", the dictionary
    "<< /Length L >>", "stream", the UTF-8 bytes of the content,
    "endstream" and "endobj", each on its own line, where [L] is exactly
    the number of bytes of the content written between the two line feeds
    that follow "stream" and precede "endstream". *)
Theorem stream_length_exact : forall n content,
  utf8 (obj_str n (stream_obj content))
  = num_str n ++ lit " 0 obj" ++ [10]
    ++ lit "<< /Length " ++ num_str (Z.of_nat (length (utf8 content))) ++ lit " >>"
    ++ [10] ++ lit "stream" ++ [10]
    ++ utf8 content
    ++ [10] ++ lit "endstream" ++ [10] ++ lit "endobj" ++ [10].
Proof.
  intros n content. unfold obj_str, stream_obj.
  set (pre := num_str n ++ lit " 0 obj" ++ [10]
              ++ lit "<< /Length " ++ num_str (Z.of_nat (length (utf8 content)))
              ++ lit " >>" ++ [10] ++ lit "stream" ++ [10]).
  set (post := [10] ++ lit "endstream" ++ [10] ++ lit "endobj" ++ [10]).
  assert (E : num_str n ++ lit " 0 obj" ++ [10]
              ++ (lit "<< /Length " ++ num_str (Z.of_nat (length (utf8 content)))
                  ++ lit " >>" ++ [10] ++ lit "stream" ++ [10] ++ content ++ [10]
                  ++ lit "endstream")
              ++ [10] ++ lit "endobj" ++ [10]
              = pre ++ content ++ post)
    by (unfold pre, post; rewrite <- !app_assoc; reflexivity).
  rewrite E, utf8_ascii_app by (unfold pre; ascii_lits).
  rewrite utf8_app_ascii by (unfold post; ascii_lits).
  unfold pre, post; rewrite <- !app_assoc; reflexivity.
Qed.

Lemma page_objects_spec : forall ps nextId,
  snd (page_objects nextId ps)
    = map (fun k => nextId + 1 + 2 * Z.of_nat k) (seq 0 (length ps))
  /\ forall k p, nth_error ps k = Some p ->
       nth_error (fst (page_objects nextId ps)) (2 * k) = Some (stream_obj (content_of p))
       /\ nth_error (fst (page_objects nextId ps)) (2 * k + 1)
          = Some (page_obj (nextId + 2 * Z.of_nat k)).
Proof.
  induction ps as [|p0 r IH]; intros nextId.
  - split; [reflexivity|intros [|k] p H; discriminate].
  - cbn [page_objects].
    destruct (IH (nextId + 2)) as [Hids Hnth].
    destruct (page_objects (nextId + 2) r) as [objs ids]; cbn [fst snd] in *.
    split.
    + rewrite Hids. cbn [length seq map].
      rewrite <- seq_shift, map_map. f_equal; [lia|].
      apply map_ext; intros k; lia.
    + intros [|k] p H.
      * simpl in H; injection H as <-. split; [reflexivity|simpl; f_equal; f_equal; lia].
      * simpl in H. destruct (Hnth k p H) as [H1 H2].
        replace (2 * S k)%nat with (S (S (2 * k)))%nat by lia.
        replace (S (S (2 * k)) + 1)%nat with (S (S (2 * k + 1)))%nat by lia.
        cbn [nth_error]. rewrite H1, H2. split; [reflexivity|].
        f_equal; f_equal; lia.
Qed.

(** X10: the objects of [buildPdfFromLines] are numbered consistently:
    object 1 is the catalog (pointing to object 2), object 2 the page tree
    listing the page objects 5, 7, 9, ... one per page and in page order
    (with /Count the number of pages), object 3 the font; for the k-th page
    (from 0), object 4 + 2k is the content stream of that page and object
    5 + 2k the page itself, whose /Contents is object 4 + 2k. *)
Theorem pdf_object_numbering : forall lines,
  let bodies := finalBodies lines in
  let ps := layout lines in
  nth_error bodies 0 = Some catalog_obj
  /\ nth_error bodies 1
     = Some (pages_obj (map (fun k => 5 + 2 * Z.of_nat k) (seq 0 (length ps))))
  /\ nth_error bodies 2 = Some font_obj
  /\ forall k p, nth_error ps k = Some p ->
       nth_error bodies (3 + 2 * k) = Some (stream_obj (content_of p))
       /\ nth_error bodies (3 + (2 * k + 1)) = Some (page_obj (4 + 2 * Z.of_nat k)).
Proof.
  intros lines bodies ps. unfold bodies, finalBodies. fold ps.
  destruct (page_objects_spec ps 4) as [Hids Hnth].
  destruct (page_objects 4 ps) as [objs ids]; cbn [fst snd] in *.
  split; [reflexivity|split; [rewrite Hids; reflexivity|]].
  split; [reflexivity|].
  intros k p H. exact (Hnth k p H).
Qed.

Lemma digits_aux_length : forall fuel n acc k, 0 <= n -> n < 10 ^ Z.of_nat k -> (1 <= k)%nat ->
  (length (digits_aux fuel n acc) <= length acc + k)%nat.
Proof.
  induction fuel as [|f IH]; intros n acc k Hn Hk Hk1; cbn [digits_aux]; [lia|].
  destruct (n <? 10) eqn:E; [simpl; lia|].
  apply Z.ltb_ge in E.
  destruct k as [|[|k]]; [lia| simpl in Hk; lia|].
  eapply Nat.le_trans.
  - apply (IH (n / 10) _ (S k)); [apply Z.div_pos; lia| |lia].
    apply Z.div_lt_upper_bound; [lia|].
    rewrite (Nat2Z.inj_succ (S k)), Z.pow_succ_r in Hk by lia. exact Hk.
  - simpl; lia.
Qed.

Lemma digits_aux_digits : forall fuel n acc, 0 <= n ->
  Forall (fun c => 48 <= c <= 57) acc -> Forall (fun c => 48 <= c <= 57) (digits_aux fuel n acc).
Proof.
  induction fuel as [|f IH]; intros n acc Hn Hacc; cbn [digits_aux]; [exact Hacc|].
  destruct (n <? 10) eqn:E.
  - apply Z.ltb_lt in E; constructor; [lia|exact Hacc].
  - apply IH; [apply Z.div_pos; lia|].
    constructor; [|exact Hacc].
    pose proof (Z.mod_pos_bound n 10 ltac:(lia)); lia.
Qed.

(** X11: for an offset below 10^10 bytes, each cross-reference entry is
    exactly 20 bytes: the offset in decimal left-padded with zeros to ten
    digits, then " 00000 n " and a line feed (all ASCII, so written as is). *)
Theorem xref_entry_20_bytes : forall off, 0 <= off < 10 ^ 10 ->
  let e := xref_entry off in
  utf8 e = e /\ length e = 20%nat
  /\ Forall (fun c => 48 <= c <= 57) (firstn 10 e)
  /\ skipn 10 e = lit " 00000 n " ++ [10].
Proof.
  intros off Hoff e.
  assert (Hns : num_str off = dec off)
    by (unfold num_str; rewrite (proj2 (Z.ltb_ge off 0)) by lia; reflexivity).
  assert (Hlen : (length (num_str off) <= 10)%nat)
    by (rewrite Hns; unfold dec;
        apply (digits_aux_length _ off [] 10); [lia|exact (proj2 Hoff)|lia]).
  assert (Hdig : Forall (fun c => 48 <= c <= 57) (num_str off))
    by (rewrite Hns; apply digits_aux_digits; [lia|constructor]).
  assert (Hpad : length (padStart10 (num_str off)) = 10%nat)
    by (unfold padStart10; rewrite length_app, repeat_length; lia).
  assert (Hpd : Forall (fun c => 48 <= c <= 57) (padStart10 (num_str off))).
  { unfold padStart10; apply Forall_app; split; [|exact Hdig].
    apply Forall_forall; intros c Hc; apply repeat_spec in Hc; subst c; lia. }
  unfold e, xref_entry.
  split.
  { apply utf8_ascii, Forall_ascii_app; [|ascii_lits].
    apply Forall_forall; intros c Hc; apply (proj1 (Forall_forall _ _) Hpd) in Hc.
    unfold ascii_unit; lia. }
  split; [rewrite !length_app, Hpad; reflexivity|].
  split.
  - rewrite firstn_app, Hpad, Nat.sub_diag, firstn_O, app_nil_r, <- Hpad, firstn_all.
    exact Hpd.
  - rewrite skipn_app, Hpad, Nat.sub_diag, skipn_O, <- Hpad, skipn_all. reflexivity.
Qed.

Lemma xref_entry_20_bytes_witness :
  (0 <= 477 < 10 ^ 10)
  /\ (let e := xref_entry 477 in
      utf8 e = e /\ length e = 20%nat
      /\ Forall (fun c => 48 <= c <= 57) (firstn 10 e)
      /\ skipn 10 e = lit " 00000 n " ++ [10]).
Proof.
  assert (H : 0 <= 477 < 10 ^ 10) by (split; [lia|vm_compute; reflexivity]).
  split; [exact H|exact (xref_entry_20_bytes 477 H)].
Defined.

Lemma obj_bytes_length : forall n body,
  (6 <= length (utf8 (obj_str n body)))%nat.
Proof.
  intros n body; unfold obj_str.
  rewrite utf8_ascii_app by apply num_str_ascii.
  rewrite utf8_ascii_app by apply lit_obj_ascii.
  rewrite !length_app; simpl; lia.
Qed.

Lemma emit_cursor_le : forall bodies i cur cs offs X,
  emit_objects i cur bodies = (cs, offs, X) -> cur <= X.
Proof.
  induction bodies as [|bd r IH]; intros i cur cs offs X He; simpl in He.
  - inversion He; lia.
  - destruct (emit_objects (i + 1)
                (cur + Z.of_nat (length (utf8 (obj_str (i + 1) bd)))) r)
      as [[cs' offs'] X'] eqn:E.
    inversion He; subst. pose proof (IH _ _ _ _ _ E). lia.
Qed.

Lemma emit_objects_sorted : forall bodies i cur cs offs X,
  emit_objects i cur bodies = (cs, offs, X) ->
  (forall o, In o offs -> cur <= o < X)
  /\ (forall a b oa ob, (a < b)%nat -> nth_error offs a = Some oa ->
        nth_error offs b = Some ob -> oa < ob).
Proof.
  induction bodies as [|bd r IH]; intros i cur cs offs X He.
  - simpl in He; injection He as <- <- <-.
    split; [intros o []|intros a b oa ob _ Ha; destruct a; discriminate].
  - simpl in He.
    destruct (emit_objects (i + 1)
                (cur + Z.of_nat (length (utf8 (obj_str (i + 1) bd)))) r)
      as [[cs' offs'] X'] eqn:E.
    injection He as <- <- <-.
    pose proof (obj_bytes_length (i + 1) bd) as Hlen.
    destruct (IH _ _ _ _ _ E) as [Hin Hsort].
    assert (HX : cur < X') by (pose proof (emit_cursor_le _ _ _ _ _ _ E); lia).
    split.
    + intros o [<-|Ho]; [lia|specialize (Hin o Ho); lia].
    + intros [|a] [|b] oa ob Hab Ha Hb; try lia.
      * simpl in Ha, Hb; injection Ha as <-.
        specialize (Hin ob (nth_error_In _ _ Hb)); lia.
      * simpl in Ha, Hb. exact (Hsort a b oa ob ltac:(lia) Ha Hb).
Qed.

(** X12: the objects are written in the order of their numbers, one after
    the other, after the header and before the cross-reference table: the
    recorded offsets strictly increase with the object number, and every
    one lies between the end of the header and [startxref]. *)
Theorem object_offsets_increasing : forall lines,
  let bodies := finalBodies lines in
  let offs := object_offsets bodies in
  (forall a b oa ob, (a < b)%nat -> nth_error offs a = Some oa ->
     nth_error offs b = Some ob -> oa < ob)
  /\ (forall o, In o offs ->
        Z.of_nat (length (utf8 pdf_header)) <= o < xref_start bodies).
Proof.
  intros lines bodies offs. unfold offs, object_offsets, xref_start.
  destruct (emit_objects 0 (Z.of_nat (length (utf8 pdf_header))) bodies)
    as [[cs os] X] eqn:E.
  destruct (emit_objects_sorted _ _ _ _ _ _ E) as [Hin Hsort].
  split; [exact Hsort|exact Hin].
Qed.

Lemma utf8_pdf_header :
  utf8 pdf_header = lit "%PDF-1.4" ++ [10; 37; 195; 162; 195; 163; 195; 143; 195; 147; 10].
Proof. vm_compute; reflexivity. Qed.

(** X13: every document [buildPdfFromLines] produces starts with the
    19-byte header "%PDF-1.4", a line feed, "%" and the four marker
    characters U+00E2 U+00E3 U+00CF U+00D3, which the text encoder writes
    as eight UTF-8 bytes (C3 A2 C3 A3 C3 8F C3 93), then a line feed; and
    it ends with "%%EOF" and a line feed. *)
Theorem pdf_framing : forall lines,
  exists mid, buildPdfFromLines lines
    = lit "%PDF-1.4" ++ [10; 37; 195; 162; 195; 163; 195; 143; 195; 147; 10]
      ++ mid ++ lit "%%EOF" ++ [10].
Proof.
  intros lines. unfold buildPdfFromLines, compose.
  destruct (emit_objects 0 (Z.of_nat (length (utf8 pdf_header))) (finalBodies lines))
    as [[cs os] X].
  rewrite concat_layout, utf8_pdf_header, trailer_eq.
  set (n := length (finalBodies lines)).
  set (A := lit "trailer" ++ [10] ++ lit "<< /Size " ++ num_str (Z.of_nat n + 1)
            ++ lit " /Root 1 0 R >>" ++ [10] ++ lit "startxref" ++ [10]
            ++ num_str X ++ [10]).
  replace (lit "trailer" ++ [10] ++ lit "<< /Size " ++ num_str (Z.of_nat n + 1)
           ++ lit " /Root 1 0 R >>" ++ [10] ++ lit "startxref" ++ [10]
           ++ num_str X ++ [10] ++ lit "%%EOF" ++ [10])
    with (A ++ (lit "%%EOF" ++ [10])) by (unfold A; rewrite <- !app_assoc; reflexivity).
  rewrite utf8_app_ascii by ascii_lits.
  exists (concat cs ++ utf8 (xref_table n (0 :: os)) ++ utf8 A).
  rewrite <- !app_assoc. reflexivity.
Qed.

Lemma POST_pdf_filename : forall p t s qs,
  match POST_pdf p t s qs with
  | Resp200 _ f =>
      exists stem, f = stem ++ lit ".pdf" /\ stem <> [] /\ (length stem <= 80)%nat
                   /\ Forall (fun c => is_alnum c || (c =? 45) = true) stem
                   /\ hd 0 stem <> 45
  | _ => True
  end.
Proof.
  intros p t s qs. unfold POST_pdf.
  destruct (bind_exn _ _); [|exact I].
  destruct (stem_charset toLowerCase t) as (H1 & H2 & H3 & H4 & _).
  exists (safeFilename t). repeat split; assumption.
Qed.

(** X14: when [POST] answers 200, the attachment file name is a stem of 1
    to 80 characters from [a-z0-9-], not starting with a hyphen, followed
    by ".pdf". *)
Theorem POST_filename_safe : forall body,
  match POST body with
  | Resp200 _ f =>
      exists stem, f = stem ++ lit ".pdf" /\ stem <> [] /\ (length stem <= 80)%nat
                   /\ Forall (fun c => is_alnum c || (c =? 45) = true) stem
                   /\ hd 0 stem <> 45
  | _ => True
  end.
Proof.
  intros [p|]; [|exact I]. cbn [POST].
  destruct (falsy p); [exact I|].
  repeat match goal with
         | |- context [match ?x with _ => _ end] =>
             lazymatch x with
             | prop _ _ => destruct x
             | _ => is_var x; destruct x
             end
         end;
  try exact I; apply POST_pdf_filename.
Qed.
